(** * pdf_converter: metric-to-inch rewriting of numeric PDF text

    A shallow embedding of [src/pdf_converter.py] and the properties of
    its three stages: the span grouper ([group_numeric_spans]), the token
    classifier/converter ([replacement_function], [convert_value]) and the
    per-page substitution applier inside [process_pdf].

    Python values are modelled as follows.
    - [str] is a list of Unicode code points; the part of the Unicode
      database that lies outside ASCII (white space, decimal digits) is a
      parameter [unicode_db] of every function that consults it.
    - [float] is IEEE 754 binary64, as specified by the Standard Library's
      [SpecFloat] (precision 53, emax 1024).
    - the dict that [group_numeric_spans] keeps in [current] and in
      [groups] at once is modelled by an index into the list of groups.
    - calls into PyMuPDF are events of a trace; an insertion may raise.
    - the calls of [logging.info] are left out: the log is a side channel
      that no value of the program depends on. *)

From Stdlib Require Import ZArith NArith List Bool Lia Ascii String.
From Stdlib Require Import DecimalString DecimalPos Floats.SpecFloat.
From stdpp Require Import base list.

Set Default Proof Using "Type".
Open Scope list_scope.

(* ===================================================================== *)
(** * Python strings *)
(* ===================================================================== *)

Module PyStr.

(** A character is a Unicode code point. *)
Definition char := N.
Definition str := list char.

Definition of_ascii (s : string) : str :=
  map N_of_ascii (list_ascii_of_string s).

Definition char_eqb (a b : char) : bool := N.eqb a b.

Fixpoint str_eqb (a b : str) : bool :=
  match a, b with
  | [], [] => true
  | x :: a', y :: b' => char_eqb x y && str_eqb a' b'
  | _, _ => false
  end.

(** The tables of the Unicode database that the interpreter consults for
    code points outside ASCII.  They depend on the Unicode version that
    the interpreter was built with. *)
Record unicode_db := {
  uni_isspace : char -> bool;
  uni_todecimal : char -> option N;
  uni_lower : list char -> list char
}.

(** A database without any non-ASCII white space or digits. *)
Definition ascii_db : unicode_db :=
  {| uni_isspace := fun _ => false; uni_todecimal := fun _ => None;
     uni_lower := fun s => s |}.

Definition LF : char := 10%N.
Definition SPACE : char := 32%N.
Definition PLUS : char := 43%N.
Definition MINUS : char := 45%N.
Definition DOT : char := 46%N.
Definition ZERO : char := 48%N.
Definition UNDERSCORE : char := 95%N.
Definition DEGREE : char := 176%N.
Definition QUESTION : char := 63%N.

Definition is_ascii (c : char) : bool := (c <? 128)%N.

(** [str.isspace] on one character: in ASCII these are TAB..CR, FS..US
    and the space. *)
Definition ascii_isspace (c : char) : bool :=
  ((9 <=? c) && (c <=? 13) || (28 <=? c) && (c <=? 31) || (c =? 32))%N.

Definition isspace (db : unicode_db) (c : char) : bool :=
  if is_ascii c then ascii_isspace c else uni_isspace db c.

Definition ascii_isdigit (c : char) : bool := ((48 <=? c) && (c <=? 57))%N.

(** The decimal value of a character of category Nd. *)
Definition todecimal (db : unicode_db) (c : char) : option N :=
  if is_ascii c then (if ascii_isdigit c then Some (c - 48)%N else None)
  else uni_todecimal db c.

Definition isdecimal (db : unicode_db) (c : char) : bool :=
  match todecimal db c with Some _ => true | None => false end.

Definition ascii_lower (c : char) : char :=
  if ((65 <=? c) && (c <=? 90))%N then (c + 32)%N else c.

(** [s.lower()]; the lower-casing of a string that is not pure ASCII is
    left to the database. *)
Definition lower (db : unicode_db) (s : str) : str :=
  if forallb is_ascii s then map ascii_lower s else uni_lower db s.

Fixpoint lstrip (db : unicode_db) (s : str) : str :=
  match s with
  | [] => []
  | c :: s' => if isspace db c then lstrip db s' else s
  end.

Definition rstrip (db : unicode_db) (s : str) : str :=
  rev (lstrip db (rev s)).

(** [s.strip()] *)
Definition strip (db : unicode_db) (s : str) : str :=
  rstrip db (lstrip db s).

(** [s.split(sep)] for a separator of one character; the result is never
    empty. *)
Fixpoint split (sep : char) (s : str) : list str :=
  match s with
  | [] => [[]]
  | c :: s' =>
      if char_eqb c sep then [] :: split sep s'
      else match split sep s' with
           | p :: ps => (c :: p) :: ps
           | [] => [[c]]
           end
  end.

(** [sep.join(parts)] *)
Fixpoint join (sep : str) (parts : list str) : str :=
  match parts with
  | [] => []
  | p :: ps =>
      match ps with
      | [] => p
      | _ :: _ => p ++ sep ++ join sep ps
      end
  end.

Fixpoint starts_with (p s : str) : bool :=
  match p, s with
  | [], _ => true
  | x :: p', y :: s' => char_eqb x y && starts_with p' s'
  | _ :: _, [] => false
  end.

(** [needle in s] *)
Fixpoint contains (needle s : str) : bool :=
  starts_with needle s ||
  match s with
  | [] => false
  | _ :: s' => contains needle s'
  end.

End PyStr.

Import PyStr.

Abbreviation py s := (of_ascii s%string) (only parsing).

(* ===================================================================== *)
(** * Regular expressions (module [re]) *)
(* ===================================================================== *)

Module Re.

(** The fragment of the pattern language that the program uses:
    character sets, concatenation, [?], [*], [+] and groups.  None of
    the patterns has an alternation bar, so that the only choice is the
    one of [?]. *)
Inductive regex :=
| Nothing
| Eps
| Class (p : char -> bool)
| Seq (r1 r2 : regex)
| Alt (r1 r2 : regex)
| Star (r : regex).

Definition Opt (r : regex) : regex := Alt r Eps.
Definition Plus (r : regex) : regex := Seq r (Star r).
Definition Lit (c : char) : regex := Class (char_eqb c).
Definition AnyChar : regex := Class (fun _ => true).

(** The language of a pattern. *)
Inductive matches : regex -> str -> Prop :=
| m_eps : matches Eps []
| m_class p c : p c = true -> matches (Class p) [c]
| m_seq r1 r2 s1 s2 :
    matches r1 s1 -> matches r2 s2 -> matches (Seq r1 r2) (s1 ++ s2)
| m_alt_l r1 r2 s : matches r1 s -> matches (Alt r1 r2) s
| m_alt_r r1 r2 s : matches r2 s -> matches (Alt r1 r2) s
| m_star_nil r : matches (Star r) []
| m_star_cons r s1 s2 :
    matches r s1 -> matches (Star r) s2 -> matches (Star r) (s1 ++ s2).

Fixpoint nullable (r : regex) : bool :=
  match r with
  | Nothing => false
  | Eps => true
  | Class _ => false
  | Seq r1 r2 => nullable r1 && nullable r2
  | Alt r1 r2 => nullable r1 || nullable r2
  | Star _ => true
  end.

Fixpoint deriv (c : char) (r : regex) : regex :=
  match r with
  | Nothing => Nothing
  | Eps => Nothing
  | Class p => if p c then Eps else Nothing
  | Seq r1 r2 =>
      if nullable r1 then Alt (Seq (deriv c r1) r2) (deriv c r2)
      else Seq (deriv c r1) r2
  | Alt r1 r2 => Alt (deriv c r1) (deriv c r2)
  | Star r1 => Seq (deriv c r1) (Star r1)
  end.

(** Does the whole of [s] belong to the language of [r]? *)
Fixpoint accepts (r : regex) (s : str) : bool :=
  match s with
  | [] => nullable r
  | c :: s' => accepts (deriv c r) s'
  end.

(** [re.match('^' r '$', s)] is a match object: the pattern matches at
    the start of [s], and [$] (without MULTILINE) matches at the end of
    the string and just before a newline that ends the string. *)
Definition match_anchored (r : regex) (s : str) : bool :=
  accepts r s || accepts (Seq r (Lit LF)) s.

(** [re.search(r, s)] is a match object: some substring of [s] belongs to
    the language of [r]. *)
Definition search (r : regex) (s : str) : bool :=
  accepts (Seq (Star AnyChar) (Seq r (Star AnyChar))) s.

End Re.

Import Re.

(* ===================================================================== *)
(** * Python floats: IEEE 754 binary64 *)
(* ===================================================================== *)

Module PyFloat.

Definition float := spec_float.
Definition prec : Z := 53.
Definition emax : Z := 1024.

(** [a / b]; the program never divides by zero, its divisors are the
    literals 25.4 and 2.54. *)
Definition fdiv (a b : float) : float := SFdiv prec emax a b.
(** [a - b] *)
Definition fsub (a b : float) : float := SFsub prec emax a b.
(** [a < b] *)
Definition flt (a b : float) : bool := SFltb a b.
(** [max(a, b)]: the builtin keeps its first argument unless the second
    one compares greater. *)
Definition fmax (a b : float) : float := if flt a b then b else a.

(** The binary64 number nearest to [num / den] (ties to even), for
    positive [num] and [den]. *)
Definition round_ratio (neg : bool) (num den : Z) : float :=
  let '(mz, ez, lz) := SFdiv_core_binary prec emax num 0 den 0 in
  binary_round_aux prec emax neg mz ez lz.

(** The binary64 number nearest to [m * 10^e]: what a correctly rounded
    [strtod] returns for the decimal digits [m] and the exponent [e]. *)
Definition of_decimal (neg : bool) (m : N) (e : Z) : float :=
  match m with
  | 0%N => S754_zero neg
  | _ =>
      if (0 <=? e)%Z then round_ratio neg (Z.of_N m * 10 ^ e) 1
      else round_ratio neg (Z.of_N m) (10 ^ (- e))
  end.

(** ** [float(s)] *)

Definition digit_val (c : char) : option N :=
  if ascii_isdigit c then Some (c - 48)%N else None.

(** The leading run of ASCII digits of [s], as values, and what
    follows it. *)
Fixpoint span_digits (s : str) : list N * str :=
  match s with
  | [] => ([], [])
  | c :: s' =>
      match digit_val c with
      | Some d => let '(ds, r) := span_digits s' in (d :: ds, r)
      | None => ([], s)
      end
  end.

Definition digits_value (ds : list N) : N :=
  fold_left (fun acc d => (10 * acc + d)%N) ds 0%N.

Definition scan_sign (s : str) : bool * str :=
  match s with
  | c :: s' =>
      if char_eqb c MINUS then (true, s')
      else if char_eqb c PLUS then (false, s')
      else (false, s)
  | [] => (false, s)
  end.

(** Replace non-ASCII white space by a space and non-ASCII decimal
    digits by their ASCII digit; the first other non-ASCII character
    becomes a question mark and ends the string. *)
Fixpoint transform_decimal_and_space (db : unicode_db) (s : str) : str :=
  match s with
  | [] => []
  | c :: s' =>
      if (c <? 127)%N then c :: transform_decimal_and_space db s'
      else if isspace db c then SPACE :: transform_decimal_and_space db s'
      else match todecimal db c with
           | Some d => (48 + d)%N :: transform_decimal_and_space db s'
           | None => [QUESTION]
           end
  end.

(** Underscores are allowed between two digits only; they are removed.
    [prev] is the previous character of the input. *)
Fixpoint remove_underscores (prev : option char) (s : str) : option str :=
  match s with
  | [] =>
      match prev with
      | Some p => if char_eqb p UNDERSCORE then None else Some []
      | None => Some []
      end
  | c :: s' =>
      let prev_is_digit :=
        match prev with Some p => ascii_isdigit p | None => false end in
      let prev_is_underscore :=
        match prev with Some p => char_eqb p UNDERSCORE | None => false end in
      if char_eqb c UNDERSCORE then
        if prev_is_digit then remove_underscores (Some c) s' else None
      else if prev_is_underscore && negb (ascii_isdigit c) then None
      else option_map (cons c) (remove_underscores (Some c) s')
  end.

(** The white space of the C locale, stripped at both ends. *)
Definition c_isspace (c : char) : bool :=
  ((9 <=? c) && (c <=? 13) || (c =? 32))%N.

Fixpoint c_lstrip (s : str) : str :=
  match s with
  | [] => []
  | c :: s' => if c_isspace c then c_lstrip s' else s
  end.

Definition c_strip (s : str) : str := rev (c_lstrip (rev (c_lstrip s))).

(** [inf], [infinity] and [nan], in any case, with an optional sign. *)
Definition parse_inf_or_nan (s : str) : option float :=
  let '(neg, body) := scan_sign s in
  let body := map ascii_lower body in
  if str_eqb body (py "inf") || str_eqb body (py "infinity")
  then Some (S754_infinity neg)
  else if str_eqb body (py "nan") then Some S754_nan
  else None.

Definition is_e (c : char) : bool := char_eqb c 101%N || char_eqb c 69%N.

(** The exponent part: [e] or [E], an optional sign and at least one
    digit; it is left unread when no digit follows. *)
Definition scan_exponent (s : str) : Z * str :=
  match s with
  | c :: t =>
      if is_e c then
        let '(eneg, t1) := scan_sign t in
        let '(ed, t2) := span_digits t1 in
        match ed with
        | [] => (0%Z, s)
        | _ :: _ =>
            let v := Z.of_N (digits_value ed) in
            ((if eneg then - v else v)%Z, t2)
        end
      else (0%Z, s)
  | [] => (0%Z, s)
  end.

(** A decimal literal: sign, digits, optional point and digits (at least
    one digit in all), optional exponent; nothing may follow. *)
Definition parse_decimal (s : str) : option float :=
  let '(neg, s1) := scan_sign s in
  let '(ip, s2) := span_digits s1 in
  let '(fp, s3) :=
    match s2 with
    | c :: t => if char_eqb c DOT then span_digits t else ([], s2)
    | [] => ([], s2)
    end in
  match ip ++ fp with
  | [] => None
  | ds =>
      let '(ex, s4) := scan_exponent s3 in
      match s4 with
      | [] => Some (of_decimal neg (digits_value ds)
                      (ex - Z.of_nat (length fp)))
      | _ :: _ => None
      end
  end.

Definition string_to_double (s : str) : option float :=
  match parse_decimal s with
  | Some x => Some x
  | None => parse_inf_or_nan s
  end.

(** [float(s)]; [None] stands for the [ValueError]. *)
Definition float_of_str (db : unicode_db) (s : str) : option float :=
  let a := transform_decimal_and_space db s in
  match (if contains [UNDERSCORE] a then remove_underscores None a
         else Some a) with
  | None => None
  | Some b => string_to_double (c_strip b)
  end.

(** A float literal of the program text. *)
Definition literal (s : string) : float :=
  match string_to_double (of_ascii s) with
  | Some x => x
  | None => S754_nan
  end.

(** ** [format(x, '.<p>f')] *)

(** The integer nearest to [num / den], ties to even ([0 < den]). *)
Definition div_half_even (num den : Z) : Z :=
  let q := (num / den)%Z in
  let r := (num mod den)%Z in
  match (2 * r ?= den)%Z with
  | Lt => q
  | Gt => (q + 1)%Z
  | Eq => if Z.even q then q else (q + 1)%Z
  end.

(** [|x| * 10^p] rounded to an integer, for [|x| = m * 2^e]. *)
Definition scaled_round (m : positive) (e : Z) (p : nat) : Z :=
  let num := (Zpos m * 10 ^ Z.of_nat p)%Z in
  if (0 <=? e)%Z then (num * 2 ^ e)%Z else div_half_even num (2 ^ (- e)).

Definition decimal_digits (n : Z) : str :=
  of_ascii (DecimalString.NilEmpty.string_of_uint (N.to_uint (Z.to_N n))).

(** The digits of [n] with a point before the last [p] of them. *)
Definition fixed_digits (n : Z) (p : nat) : str :=
  let ds := decimal_digits n in
  let ds := repeat ZERO (S p - length ds) ++ ds in
  let k := (length ds - p)%nat in
  match p with
  | O => ds
  | S _ => firstn k ds ++ DOT :: skipn k ds
  end.

Definition sign_str (neg : bool) : str := if neg then [MINUS] else [].

Definition format_fixed (x : float) (p : nat) : str :=
  match x with
  | S754_nan => py "nan"
  | S754_infinity s => sign_str s ++ py "inf"
  | S754_zero s => sign_str s ++ fixed_digits 0 p
  | S754_finite s m e => sign_str s ++ fixed_digits (scaled_round m e p) p
  end.

End PyFloat.

Import PyFloat.

(* ===================================================================== *)
(** * The token classifier/converter *)
(* ===================================================================== *)

Section Converter.

Variable db : unicode_db.

(** [convert_value(value_str, unit, precision)].  The [ValueError] of
    [float] is caught here; formatting is modelled without the
    interpreter's limit on the precision, so that nothing is raised. *)
Definition convert_value (value_str unit : str) (precision : nat) : str :=
  match float_of_str db value_str with
  | None => value_str
  | Some value =>
      let factor :=
        if str_eqb (lower db unit) (py "mm") then literal "25.4"
        else literal "2.54" in
      let converted := fdiv value factor in
      format_fixed converted precision
  end.

Definition is_x (c : char) : bool := char_eqb c 120%N || char_eqb c 88%N.

(** [r'\d[xX]\d'] *)
Definition gdt_pattern : regex :=
  Seq (Class (isdecimal db)) (Seq (Class is_x) (Class (isdecimal db))).

(** The base number and the tolerance of a token. *)
Definition split_tolerance (text : str) : str * str :=
  let split_plus := split PLUS text in
  let split_minus := split MINUS text in
  if (1 <? length split_plus)%nat then
    (hd [] split_plus, PLUS :: join [PLUS] (skipn 1 split_plus))
  else if (1 <? length split_minus)%nat then
    (hd [] split_minus, MINUS :: join [MINUS] (skipn 1 split_minus))
  else (text, []).

(** The precision that the base number determines. *)
Definition precision_of (base_number : str) : nat :=
  let parts := split DOT base_number in
  if (1 <? length parts)%nat then length (nth 1 parts []) else 4%nat.

(** [replacement_function(text)].  [convert_value] raises nothing, so
    the handler of the [try] statement is never entered. *)
Definition replacement_function (text : str) : str :=
  if contains [DEGREE] text then text
  else if search gdt_pattern text then text
  else
    let '(base_number, tolerance) := split_tolerance text in
    let prec := precision_of base_number in
    let converted := convert_value base_number (py "mm") prec in
    converted ++ tolerance.

End Converter.

(* ===================================================================== *)
(** * The span grouper *)
(* ===================================================================== *)

(** A bounding box [x0, y0, x1, y1]; the fields are the items 0 to 3. *)
Record bbox := mk_bbox { x0 : float; y0 : float; x1 : float; y1 : float }.

(** A colour: PyMuPDF reports an sRGB integer, the program's default is a
    triple. *)
Inductive color :=
| color_int (n : Z)
| color_triple (r g b : Z).

(** A span of the text dictionary; [text] and [color] are read with
    [get] and may be absent. *)
Record span := mk_span {
  span_text : option str;
  span_bbox : bbox;
  span_font : str;
  span_size : float;
  span_color : option color
}.

(** The dict of a group. *)
Record group := mk_group {
  g_text : str;
  g_bbox : bbox;
  g_font : str;
  g_size : float;
  g_color : color
}.

(** The state of the loop: the list [groups], and [current], which is
    [None] or the dict that was appended last.  That dict is one object,
    reachable from both names; [current] is its index in [groups]. *)
Record gstate := mk_gstate {
  groups : list group;
  current : option nat
}.

Section Grouper.

Variable db : unicode_db.

Definition numeric_char (c : char) : bool :=
  ascii_isdigit c || char_eqb c DOT || char_eqb c PLUS || char_eqb c MINUS.

(** [r'^[0-9\.\+\-]+$'] without its anchors *)
Definition numeric_pattern : regex := Plus (Class numeric_char).

Definition is_numeric_text (t : str) : bool :=
  match_anchored numeric_pattern (strip db t).

(** The text of a span as the loop reads it. *)
Definition span_txt (s : span) : str :=
  strip db (default [] (span_text s)).

(** The dict that [current] refers to. *)
Definition open_group (st : gstate) : option group :=
  match current st with
  | Some i => groups st !! i
  | None => None
  end.

(** The updates of a merge, on the dict [g]. *)
Definition merge_span (g : group) (txt : str) (cur_bbox : bbox) : group :=
  let b := g_bbox g in
  {| g_text := g_text g ++ txt;
     g_bbox := {| x0 := x0 b; y0 := y0 b;
                  x1 := x1 cur_bbox;
                  y1 := fmax (y1 b) (y1 cur_bbox) |};
     g_font := g_font g; g_size := g_size g; g_color := g_color g |}.

Definition new_group (txt : str) (s : span) : group :=
  {| g_text := txt;
     g_bbox := span_bbox s;
     g_font := span_font s;
     g_size := span_size s;
     g_color := default (color_triple 0 0 0) (span_color s) |}.

Definition start_group (st : gstate) (txt : str) (s : span) : gstate :=
  {| groups := groups st ++ [new_group txt s];
     current := Some (length (groups st)) |}.

(** One iteration of the loop.  A state in which [current] is an index
    without a dict does not arise ([current_valid] below is an invariant
    of the loop); the step is completed there by starting a group. *)
Definition group_step (gap_threshold : float) (st : gstate) (s : span)
  : gstate :=
  let txt := span_txt s in
  match txt with
  | [] => st
  | _ :: _ =>
      if is_numeric_text txt then
        match current st with
        | Some i =>
            match groups st !! i with
            | Some cur =>
                let prev_bbox := g_bbox cur in
                let cur_bbox := span_bbox s in
                let gap := fsub (x0 cur_bbox) (x1 prev_bbox) in
                if flt gap gap_threshold then
                  {| groups := <[i := merge_span cur txt cur_bbox]> (groups st);
                     current := Some i |}
                else start_group st txt s
            | None => start_group st txt s
            end
        | None => start_group st txt s
        end
      else {| groups := groups st; current := None |}
  end.

Definition group_init : gstate := {| groups := []; current := None |}.

Definition group_run (gap_threshold : float) (spans : list span) : gstate :=
  fold_left (group_step gap_threshold) spans group_init.

(** [group_numeric_spans(spans, gap_threshold)] *)
Definition group_numeric_spans (spans : list span) (gap_threshold : float)
  : list group :=
  groups (group_run gap_threshold spans).

(** The default of [gap_threshold]. *)
Definition default_gap_threshold : float := literal "3.0".

End Grouper.

(* ===================================================================== *)
(** * Page processing and the substitution applier *)
(* ===================================================================== *)

(** The text dictionary of a page, as [page.get_text("dict")] returns it.
    A block without the key [lines] is an image block; a dictionary
    without the key [blocks] is read as one without blocks. *)
Record line := mk_line { line_spans : list span }.
Record block := mk_block { block_lines : option (list line) }.
Record page_dict := mk_page_dict { pd_blocks : option (list block) }.

(** The tuple that [process_pdf] appends to [replacements]; the fields
    are its items 0 to 4. *)
Record replacement := mk_replacement {
  rep_bbox : bbox;
  rep_text : str;
  rep_font : str;
  rep_size : float;
  rep_color : color
}.

(** The calls into PyMuPDF and the operating system, in the order in
    which the program makes them.  A page is named by its index. *)
Inductive event :=
| EvOpen (input_file : str)
| EvGetText (page : nat)
| EvAddRedactAnnot (page : nat) (rect : bbox) (fill : Z * Z * Z)
| EvApplyRedactions (page : nat)
| EvInsertTextbox (page : nat) (rect : bbox) (text fontname : str)
    (fontsize : float) (color : color) (align : Z) (overlay : bool)
| EvSave (output_file : str)
| EvStartfile (output_file : str).

Inductive outcome (A : Type) :=
| Returned (a : A)
| Raised.
Arguments Returned {A} a.
Arguments Raised {A}.

(** A computation extends the trace of calls and returns or raises. *)
Definition M (A : Type) : Type := list event -> outcome A * list event.

#[global] Instance M_ret : MRet M := fun A a tr => (Returned a, tr).

#[global] Instance M_bind : MBind M := fun A B k m tr =>
  match m tr with
  | (Returned a, tr') => k a tr'
  | (Raised, tr') => (Raised, tr')
  end.

(** [try: m except Exception: h] *)
Definition try_except {A} (m h : M A) : M A :=
  fun tr =>
    match m tr with
    | (Returned a, tr') => (Returned a, tr')
    | (Raised, tr') => h tr'
    end.

(** [for x in xs: body(x)] *)
Fixpoint for_each {A} (xs : list A) (body : A -> M unit) : M unit :=
  match xs with
  | [] => mret tt
  | x :: xs' => body x ;; for_each xs' body
  end.

Section Applier.

Variable db : unicode_db.

(** Whether the call that the last event of a trace records raises an
    exception; it is consulted for the calls that the program guards
    with [try], the others are taken to return. *)
Variable raises : list event -> bool.

(** A call that returns. *)
Definition call (e : event) : M unit := fun tr => (Returned tt, tr ++ [e]).

(** A call that may raise. *)
Definition call_guarded (e : event) : M unit :=
  fun tr =>
    let tr' := tr ++ [e] in
    if raises tr' then (Raised, tr') else (Returned tt, tr').

Definition sign_char (c : char) : bool := char_eqb c PLUS || char_eqb c MINUS.

(** [\d*\.?\d+] *)
Definition unsigned_number : regex :=
  Seq (Star (Class (isdecimal db)))
      (Seq (Opt (Lit DOT)) (Plus (Class (isdecimal db)))).

(** [r'^[+-]?\d*\.?\d+(?:[+-]\d*\.?\d+)?$'] without its anchors; the
    flag IGNORECASE changes nothing, the pattern has no letters. *)
Definition number_pattern : regex :=
  Seq (Opt (Class sign_char))
      (Seq unsigned_number
           (Opt (Seq (Class sign_char) unsigned_number))).

(** The replacement that a group gives rise to, if any. *)
Definition group_replacement (g : group) : list replacement :=
  let group_text := g_text g in
  if match_anchored number_pattern group_text then
    let converted := replacement_function db group_text in
    if negb (str_eqb converted group_text) then
      [ {| rep_bbox := g_bbox g; rep_text := converted;
           rep_font := g_font g; rep_size := g_size g;
           rep_color := g_color g |} ]
    else []
  else [].

Definition scan_line (l : line) : list replacement :=
  flat_map group_replacement
    (group_numeric_spans db (line_spans l) default_gap_threshold).

Definition scan_block (b : block) : list replacement :=
  match block_lines b with
  | None => []
  | Some ls => flat_map scan_line ls
  end.

(** The list [replacements] once the blocks of a page are traversed. *)
Definition scan_page (pd : page_dict) : list replacement :=
  flat_map scan_block (default [] (pd_blocks pd)).

Definition white : Z * Z * Z := (1, 1, 1)%Z.
Definition helv : str := py "helv".

Definition insert_event (page : nat) (rep : replacement) (fontname : str)
  : event :=
  EvInsertTextbox page (rep_bbox rep) (rep_text rep) fontname
    (rep_size rep) (rep_color rep) 0 true.

(** The body of the second loop over [replacements]. *)
Definition reinsert (page : nat) (rep : replacement) : M unit :=
  try_except
    (call_guarded (insert_event page rep (rep_font rep)))
    (call_guarded (insert_event page rep helv)).

(** The statements under [if replacements:]. *)
Definition apply_replacements (page : nat) (replacements : list replacement)
  : M unit :=
  match replacements with
  | [] => mret tt
  | _ :: _ =>
      for_each replacements
        (fun rep => call (EvAddRedactAnnot page (rep_bbox rep) white)) ;;
      call (EvApplyRedactions page) ;;
      for_each replacements (reinsert page)
  end.

(** The body of [for page in doc]. *)
Definition process_page (page : nat) (pd : page_dict) : M unit :=
  call (EvGetText page) ;;
  let replacements := scan_page pd in
  apply_replacements page replacements.

Fixpoint process_pages (page : nat) (doc : list page_dict) : M unit :=
  match doc with
  | [] => mret tt
  | pd :: doc' => process_page page pd ;; process_pages (S page) doc'
  end.

(** [process_pdf(input_file, output_file)], for a document whose pages
    have the text dictionaries [doc]. *)
Definition process_pdf (input_file output_file : str) (doc : list page_dict)
  : M unit :=
  call (EvOpen input_file) ;;
  process_pages 0 doc ;;
  call (EvSave output_file) ;;
  try_except (call_guarded (EvStartfile output_file)) (mret tt).

End Applier.


(* ===================================================================== *)
(** * Notions of the specification *)
(* ===================================================================== *)

(** What follows the first point of a string; empty if it has none. *)
Fixpoint after_point (s : str) : str :=
  match s with
  | [] => []
  | c :: s' => if char_eqb c DOT then s' else after_point s'
  end.

(** The count of digits after the decimal point. *)
Definition digits_after_point (db : unicode_db) (base_number : str) : nat :=
  length (List.filter (isdecimal db) (after_point base_number)).

(** The precision as the specification words it: the count of digits
    after the decimal point, 4 without a point. *)
Definition stated_precision (db : unicode_db) (base_number : str) : nat :=
  if contains [DOT] base_number then digits_after_point db base_number
  else 4%nat.

(** The token has the shape of a GD&T callout somewhere: a digit, the
    letter x, a digit. *)
Definition has_gdt_callout (db : unicode_db) (text : str) : Prop :=
  exists pre d1 x d2 post,
    text = pre ++ d1 :: x :: d2 :: post /\
    isdecimal db d1 = true /\ is_x x = true /\ isdecimal db d2 = true.

(** A span is purely numeric: its trimmed text is not empty and has only
    characters of the class [[0-9.+-]]. *)
Definition numeric_span (db : unicode_db) (s : span) : Prop :=
  span_txt db s <> [] /\ forallb numeric_char (span_txt db s) = true.

(** A span is blank: nothing is left of its text once it is trimmed. *)
Definition blank_span (db : unicode_db) (s : span) : Prop :=
  span_txt db s = [].

(** The gap between the open group [g] and the span [s] is below the
    threshold. *)
Definition gap_below (gap_threshold : float) (g : group) (s : span) : bool :=
  flt (fsub (x0 (span_bbox s)) (x1 (g_bbox g))) gap_threshold.

(** The invariant of the loop: [current] is the last added dict. *)
Definition current_valid (st : gstate) : Prop :=
  match current st with
  | Some i => S i = length (groups st)
  | None => True
  end.

(** The state [st] with the groups [front] put before its own. *)
Definition shift_state (front : list group) (st : gstate) : gstate :=
  {| groups := front ++ groups st;
     current := option_map (Nat.add (length front)) (current st) |}.

(** The text of a group with the member spans [ms]. *)
Definition members_text (db : unicode_db) (ms : list span) : str :=
  concat (map (span_txt db) ms).

(** [g] is made of purely numeric spans among [seen]. *)
Definition group_of_members (db : unicode_db) (seen : list span) (g : group)
  : Prop :=
  exists ms,
    ms <> [] /\ Forall (numeric_span db) ms /\
    (forall m, In m ms -> In m seen) /\
    g_text g = members_text db ms.

(** The record of a group: its box, the converted text and its style. *)
Definition replacement_of (db : unicode_db) (g : group) : replacement :=
  {| rep_bbox := g_bbox g;
     rep_text := replacement_function db (g_text g);
     rep_font := g_font g;
     rep_size := g_size g;
     rep_color := g_color g |}.

(** The text of a group is a complete number and its conversion differs
    from it. *)
Definition is_replaced (db : unicode_db) (g : group) : bool :=
  match_anchored (number_pattern db) (g_text g) &&
  negb (str_eqb (replacement_function db (g_text g)) (g_text g)).

(** The groups of a page, in the order of the scan. *)
Definition page_groups (db : unicode_db) (pd : page_dict) : list group :=
  flat_map
    (fun b =>
       flat_map
         (fun l => group_numeric_spans db (line_spans l) default_gap_threshold)
         (default [] (block_lines b)))
    (default [] (pd_blocks pd)).

(** The erasures of a page: one for the box of each record. *)
Definition redact_events (page : nat) (replacements : list replacement)
  : list event :=
  map (fun rep => EvAddRedactAnnot page (rep_bbox rep) white) replacements.

Definition is_insert (page : nat) (e : event) : Prop :=
  match e with
  | EvInsertTextbox p _ _ _ _ _ _ _ => p = page
  | _ => False
  end.

(* ===================================================================== *)
(** * Sample inputs *)
(* ===================================================================== *)

(** A span in 10 pt Helvetica, black, with the given text and box. *)
Definition sample_span (text : string) (left top right bottom : string)
  : span :=
  {| span_text := Some (of_ascii text);
     span_bbox := mk_bbox (literal left) (literal top)
                    (literal right) (literal bottom);
     span_font := py "Helvetica";
     span_size := literal "10";
     span_color := Some (color_int 0) |}.

Definition sample_group (text : string) (left top right bottom : string)
  : group :=
  {| g_text := of_ascii text;
     g_bbox := mk_bbox (literal left) (literal top)
                 (literal right) (literal bottom);
     g_font := py "Helvetica";
     g_size := literal "10";
     g_color := color_int 0 |}.

Definition sample_line (spans : list span) : page_dict :=
  {| pd_blocks := Some [ {| block_lines := Some [ {| line_spans := spans |} ] |} ] |}.

(** A library in which every insertion of text raises. *)
Definition no_font (tr : list event) : bool :=
  match last tr with
  | Some (EvInsertTextbox _ _ _ _ _ _ _ _) => true
  | _ => false
  end.

(** A library that has no font but ["helv"]. *)
Definition only_helv (tr : list event) : bool :=
  match last tr with
  | Some (EvInsertTextbox _ _ _ fontname _ _ _ _) =>
      negb (str_eqb fontname helv)
  | _ => false
  end.

(** A library and a system in which nothing raises. *)
Definition no_failure (tr : list event) : bool := false.

Definition sample_page : page_dict :=
  sample_line [sample_span "25.40" "0" "0" "20" "9"].

Definition sample_replacement : replacement :=
  replacement_of ascii_db (sample_group "25.40" "0" "0" "20" "9").

(* ===================================================================== *)
(** * The grouping as a partition of the numeric spans *)
(* ===================================================================== *)

(** A run of spans: its first span and the spans merged after it. *)
Definition run : Type := span * list span.

Definition run_members (r : run) : list span := fst r :: snd r.

Definition run_last (r : run) : span := List.last (snd r) (fst r).

Definition run_extend (r : run) (s : span) : run := (fst r, snd r ++ [s]).

(** The group of a run, in closed form: the texts in a row, the left and
    top edge and the style of the first span, the right edge of the last
    span, and for the bottom edge the [max] of the bottoms taken from left
    to right. *)
Definition group_of_run (db : unicode_db) (r : run) : group :=
  let first := fst r in
  {| g_text := members_text db (run_members r);
     g_bbox :=
       {| x0 := x0 (span_bbox first);
          y0 := y0 (span_bbox first);
          x1 := x1 (span_bbox (run_last r));
          y1 := fold_left fmax (map (fun m => y1 (span_bbox m)) (snd r))
                  (y1 (span_bbox first)) |};
     g_font := span_font first;
     g_size := span_size first;
     g_color := default (color_triple 0 0 0) (span_color first) |}.

(** The test of the loop on a span, on its own: the trimmed text is not
    empty and has only characters of [[0-9.+-]]. *)
Definition is_numeric_span (db : unicode_db) (s : span) : bool :=
  match span_txt db s with
  | [] => false
  | _ :: _ => forallb numeric_char (span_txt db s)
  end.

Definition is_blank_span (db : unicode_db) (s : span) : bool :=
  match span_txt db s with
  | [] => true
  | _ :: _ => false
  end.

(** The span [s] starts less than the threshold to the right of the right
    edge of the span [p]. *)
Definition near (gap_threshold : float) (p s : span) : bool :=
  flt (fsub (x0 (span_bbox s)) (x1 (span_bbox p))) gap_threshold.

(** The runs read so far: the finished ones, and the one that the next
    span may join. *)
Record pstate := mk_pstate {
  finished : list run;
  open_run : option run
}.

Definition pstate_runs (ps : pstate) : list run :=
  finished ps ++ match open_run ps with Some r => [r] | None => [] end.

Definition close_run (ps : pstate) : list run := pstate_runs ps.

Definition partition_step (db : unicode_db) (gap_threshold : float)
    (ps : pstate) (s : span) : pstate :=
  if is_blank_span db s then ps
  else if is_numeric_span db s then
    match open_run ps with
    | Some r =>
        if near gap_threshold (run_last r) s
        then {| finished := finished ps; open_run := Some (run_extend r s) |}
        else {| finished := close_run ps; open_run := Some (s, []) |}
    | None => {| finished := finished ps; open_run := Some (s, []) |}
    end
  else {| finished := close_run ps; open_run := None |}.

(** The runs of a line: blank spans are passed over, a numeric span joins
    the run of the numeric span before it when it is near to it, and
    starts a run otherwise. *)
Definition partition_spans (db : unicode_db) (gap_threshold : float)
    (spans : list span) : list run :=
  pstate_runs
    (fold_left (partition_step db gap_threshold) spans
       {| finished := []; open_run := None |}).

(** The state of the loop that corresponds to runs. *)
Definition gstate_of (db : unicode_db) (ps : pstate) : gstate :=
  {| groups := map (group_of_run db) (pstate_runs ps);
     current := match open_run ps with
                | Some _ => Some (length (finished ps))
                | None => None
                end |}.

(* ===================================================================== *)
(** * The shape of converted values *)
(* ===================================================================== *)

(** A numeral in fixed notation with [p] decimals: an optional minus
    sign, at least one digit and, when [p] is not 0, a point and [p]
    digits. *)
Definition fixed_numeral (p : nat) (s : str) : Prop :=
  exists sg ip fp,
    s = sg ++ ip ++ match p with O => [] | S _ => DOT :: fp end /\
    (sg = [] \/ sg = [MINUS]) /\
    ip <> [] /\ forallb ascii_isdigit ip = true /\
    forallb ascii_isdigit fp = true /\ length fp = p.

(** The ways of writing [mm]: two letters m, small or capital. *)
Definition is_mm (unit : str) : bool :=
  match unit with
  | [a; b] =>
      (char_eqb a 109%N || char_eqb a 77%N) &&
      (char_eqb b 109%N || char_eqb b 77%N)
  | _ => false
  end.

(* ===================================================================== *)
(** * The program as a whole *)
(* ===================================================================== *)






(* ===================================================================== *)
(** * Strings: splitting, joining, stripping *)
(* ===================================================================== *)

Section StringFacts.

Lemma char_eqb_eq (a b : char) : char_eqb a b = true <-> a = b.
Proof. unfold char_eqb. apply N.eqb_eq. Qed.

Lemma char_eqb_refl (a : char) : char_eqb a a = true.
Proof. apply char_eqb_eq. reflexivity. Qed.

Lemma str_eqb_eq (a b : str) : str_eqb a b = true <-> a = b.
Proof.
  revert b. induction a as [|x a IH]; intros [|y b]; simpl; try easy.
  rewrite andb_true_iff, char_eqb_eq, IH. split.
  - intros [-> ->]. reflexivity.
  - intros [= -> ->]. auto.
Qed.

Lemma split_nonempty (sep : char) (s : str) : split sep s <> [].
Proof.
  destruct s as [|c s]; simpl; [discriminate|].
  destruct (char_eqb c sep); [discriminate|].
  destruct (split sep s); discriminate.
Qed.

(** Joining the parts of a split gives the string back. *)
Lemma join_split (sep : char) (s : str) : join [sep] (split sep s) = s.
Proof.
  induction s as [|c s IH]; simpl; [reflexivity|].
  destruct (char_eqb c sep) eqn:E.
  - apply char_eqb_eq in E. subst c.
    pose proof (split_nonempty sep s) as Hne.
    destruct (split sep s) as [|p ps] eqn:Es; [contradiction|].
    simpl. f_equal. exact IH.
  - pose proof (split_nonempty sep s) as Hne.
    destruct (split sep s) as [|p ps] eqn:Es; [contradiction|].
    rewrite <- IH. simpl. destruct ps; reflexivity.
Qed.

(** The first part of a split is what precedes the first separator. *)
Lemma split_first (sep : char) (s : str) :
  (In sep s ->
     exists pre post, s = pre ++ sep :: post /\ ~ In sep pre /\
       split sep s = pre :: split sep post) /\
  (~ In sep s -> split sep s = [s]).
Proof.
  induction s as [|c s [IH1 IH2]]; simpl.
  - split; [intros []|reflexivity].
  - destruct (char_eqb c sep) eqn:E.
    + apply char_eqb_eq in E. subst c. split.
      * intros _. exists [], s. simpl. auto.
      * intros H. exfalso. apply H. now left.
    + assert (c <> sep) as Hc.
      { intros ->. rewrite char_eqb_refl in E. discriminate. }
      split.
      * intros [H|H]; [contradiction|].
        destruct (IH1 H) as (pre & post & -> & Hpre & Hs).
        exists (c :: pre), post. rewrite Hs. simpl.
        repeat split; try reflexivity.
        intros [?|?]; [congruence|contradiction].
      * intros H. rewrite IH2; [reflexivity|]. intros ?. apply H. now right.
Qed.

Lemma split_length_gt1 (sep : char) (s : str) :
  (1 <? length (split sep s))%nat = true <-> In sep s.
Proof.
  destruct (split_first sep s) as [H1 H2]. split.
  - intros H. destruct (in_dec N.eq_dec sep s) as [?|Hn]; [assumption|].
    rewrite (H2 Hn) in H. discriminate.
  - intros H. destruct (H1 H) as (pre & post & _ & _ & ->).
    pose proof (split_nonempty sep post).
    destruct (split sep post); [contradiction|reflexivity].
Qed.

Lemma contains_single (c : char) (s : str) :
  contains [c] s = true <-> In c s.
Proof.
  induction s as [|x s IH]; simpl.
  - split; [discriminate|intros []].
  - rewrite orb_true_iff, IH, andb_true_r, char_eqb_eq. intuition.
Qed.

Variable db : unicode_db.

Lemma lstrip_decompose (s : str) :
  exists pre, s = pre ++ lstrip db s /\ forallb (isspace db) pre = true.
Proof.
  induction s as [|c s (pre & Hs & Hpre)]; simpl.
  - exists []. auto.
  - destruct (isspace db c) eqn:E.
    + exists (c :: pre). simpl. rewrite E, Hpre. split; [congruence|reflexivity].
    + exists []. auto.
Qed.

Lemma lstrip_head (s : str) (c : char) (t : str) :
  lstrip db s = c :: t -> isspace db c = false.
Proof.
  induction s as [|x s IH]; simpl; [discriminate|].
  destruct (isspace db x) eqn:E; [exact IH|].
  intros [= -> ->]. exact E.
Qed.

Lemma lstrip_id (s : str) :
  match s with [] => True | c :: _ => isspace db c = false end ->
  lstrip db s = s.
Proof. destruct s as [|c s]; simpl; [reflexivity|]. intros ->. reflexivity. Qed.

(** The last character of a stripped string is not white space. *)
Lemma strip_last (s : str) (t : str) (c : char) :
  strip db s = t ++ [c] -> isspace db c = false.
Proof.
  unfold strip, rstrip. intros H.
  apply (f_equal (@rev char)) in H. rewrite rev_involutive, rev_app_distr in H.
  simpl in H. eapply lstrip_head. exact H.
Qed.

(** Neither is its first character. *)
Lemma strip_first (s : str) (c : char) (t : str) :
  strip db s = c :: t -> isspace db c = false.
Proof.
  unfold strip, rstrip. intros H.
  destruct (lstrip_decompose (rev (lstrip db s))) as (pre & Hd & _).
  apply (f_equal (@rev char)) in Hd.
  rewrite rev_involutive, rev_app_distr, H in Hd. simpl in Hd.
  eapply lstrip_head. exact Hd.
Qed.

Lemma strip_idempotent (s : str) : strip db (strip db s) = strip db s.
Proof.
  set (v := strip db s).
  assert (lstrip db v = v) as H1.
  { apply lstrip_id. destruct v as [|c t] eqn:E; [exact I|].
    eapply strip_first. exact E. }
  assert (lstrip db (rev v) = rev v) as H2.
  { apply lstrip_id. destruct (rev v) as [|c t] eqn:E; [exact I|].
    apply (f_equal (@rev char)) in E. rewrite rev_involutive in E. simpl in E.
    eapply strip_last. exact E. }
  unfold strip at 1, rstrip. rewrite H1, H2. apply rev_involutive.
Qed.

End StringFacts.

(* ===================================================================== *)
(** * Regular expressions: the matcher decides the language *)
(* ===================================================================== *)

Section RegexFacts.

Lemma nullable_matches (r : regex) : nullable r = true <-> matches r [].
Proof.
  induction r as [| |p|r1 IH1 r2 IH2|r1 IH1 r2 IH2|r IH]; simpl.
  - split; [discriminate|]. intros H. inversion H.
  - split; [constructor|reflexivity].
  - split; [discriminate|]. intros H. inversion H.
  - rewrite andb_true_iff, IH1, IH2. split.
    + intros [H1 H2]. change (@nil char) with (@nil char ++ []).
      now constructor.
    + intros H. inversion H as [| |? ? s1 s2 Ha Hb| | | |]; subst.
      match goal with
      | Hs : _ ++ _ = [] |- _ => apply app_eq_nil in Hs as [-> ->]
      end. auto.
  - rewrite orb_true_iff, IH1, IH2. split.
    + intros [H|H]; [now apply m_alt_l|now apply m_alt_r].
    + intros H. inversion H; subst; auto.
  - split; [constructor|reflexivity].
Qed.

(** A non-empty word of a starred pattern starts with a non-empty word of
    the pattern. *)
Lemma matches_star_cons (r : regex) (c : char) (s : str) :
  matches (Star r) (c :: s) ->
  exists s1 s2, s = s1 ++ s2 /\ matches r (c :: s1) /\ matches (Star r) s2.
Proof.
  intros H. remember (Star r) as r' eqn:Er. remember (c :: s) as w eqn:Ew.
  induction H as [| | | | | |r0 s1 s2 H1 _ H2 IH2]; try discriminate.
  injection Er as ->. destruct s1 as [|x s1]; simpl in Ew.
  - apply IH2; auto.
  - injection Ew as ? ?. subst. exists s1, s2. auto.
Qed.

Lemma deriv_matches (r : regex) (c : char) (s : str) :
  matches (deriv c r) s <-> matches r (c :: s).
Proof.
  revert s. induction r as [| |p|r1 IH1 r2 IH2|r1 IH1 r2 IH2|r IH];
    intros s; simpl.
  - split; intros H; inversion H.
  - split; intros H; inversion H.
  - destruct (p c) eqn:E; split; intros H; inversion H; subst.
    + now constructor.
    + constructor.
    + congruence.
  - assert (forall w, matches (Seq (deriv c r1) r2) w ->
                      matches (Seq r1 r2) (c :: w)) as Hfwd.
    { intros w H. inversion H as [| |? ? s1 s2 Ha Hb| | | |]; subst.
      apply IH1 in Ha. change (c :: s1 ++ s2) with ((c :: s1) ++ s2).
      now constructor. }
    assert (forall w, matches (Seq r1 r2) (c :: w) ->
              matches (Seq (deriv c r1) r2) w \/
              (matches r1 [] /\ matches r2 (c :: w))) as Hbwd.
    { intros w H. inversion H as [| |? ? s1 s2 Ha Hb| | | |]; subst.
      match goal with Hs : _ ++ _ = _ :: _ |- _ => rename Hs into Hw end.
      destruct s1 as [|x s1]; simpl in Hw.
      - right. subst s2. auto.
      - injection Hw as ? ?. subst. left.
        constructor; [now apply IH1|assumption]. }
    destruct (nullable r1) eqn:En.
    + split.
      * intros H. inversion H; subst; [now apply Hfwd|].
        apply nullable_matches in En.
        change (c :: s) with ([] ++ c :: s). constructor; [assumption|].
        now apply IH2.
      * intros H. destruct (Hbwd _ H) as [H1|[_ H1]].
        -- now apply m_alt_l.
        -- apply m_alt_r. now apply IH2.
    + split; [apply Hfwd|].
      intros H. destruct (Hbwd _ H) as [H1|[H1 _]]; [assumption|].
      apply nullable_matches in H1. congruence.
  - split; intros H; inversion H; subst.
    + apply m_alt_l. now apply IH1.
    + apply m_alt_r. now apply IH2.
    + apply m_alt_l. now apply IH1.
    + apply m_alt_r. now apply IH2.
  - split.
    + intros H. inversion H as [| |? ? s1 s2 Ha Hb| | | |]; subst.
      apply IH in Ha. change (c :: s1 ++ s2) with ((c :: s1) ++ s2).
      now constructor.
    + intros H. apply matches_star_cons in H as (s1 & s2 & -> & Ha & Hb).
      constructor; [now apply IH|assumption].
Qed.

Theorem accepts_matches (r : regex) (s : str) :
  accepts r s = true <-> matches r s.
Proof.
  revert r. induction s as [|c s IH]; intros r; simpl.
  - apply nullable_matches.
  - rewrite IH. apply deriv_matches.
Qed.

(** The words of [[p]+] are the non-empty words over [p]. *)
Lemma matches_star_class (p : char -> bool) (s : str) :
  matches (Star (Class p)) s -> forallb p s = true.
Proof.
  intros H. remember (Star (Class p)) as r eqn:Er.
  induction H as [| | | | | |r0 s1 s2 H1 _ H2 IH2]; try discriminate.
  - reflexivity.
  - injection Er as ->. inversion H1; subst. simpl.
    rewrite IH2 by reflexivity. rewrite andb_true_r. assumption.
Qed.

Lemma matches_plus_class (p : char -> bool) (s : str) :
  matches (Plus (Class p)) s -> s <> [] /\ forallb p s = true.
Proof.
  unfold Plus. intros H.
  inversion H as [| |? ? s1 s2 Ha Hb| | | |]; subst.
  inversion Ha; subst. simpl. split; [discriminate|].
  apply matches_star_class in Hb. rewrite Hb, andb_true_r. assumption.
Qed.

Lemma matches_plus_class_intro (p : char -> bool) (s : str) :
  s <> [] -> forallb p s = true -> matches (Plus (Class p)) s.
Proof.
  intros Hne Hall. destruct s as [|c s]; [contradiction|].
  simpl in Hall. apply andb_true_iff in Hall as [Hc Hs].
  unfold Plus. change (c :: s) with ([c] ++ s).
  constructor; [now constructor|].
  clear Hne Hc. induction s as [|x s IH]; [constructor|].
  simpl in Hs. apply andb_true_iff in Hs as [Hx Hs].
  change (x :: s) with ([x] ++ s). constructor; [now constructor|auto].
Qed.

Lemma matches_star_any (s : str) : matches (Star AnyChar) s.
Proof.
  induction s as [|c s IH]; [constructor|].
  change (c :: s) with ([c] ++ s). constructor; [now constructor|assumption].
Qed.

(** [search] finds a word of the pattern somewhere in the string. *)
Lemma search_spec (r : regex) (s : str) :
  search r s = true <->
  exists pre mid post, s = pre ++ mid ++ post /\ matches r mid.
Proof.
  unfold search. rewrite accepts_matches. split.
  - intros H. inversion H as [| |? ? pre w _ Hw| | | |]; subst.
    inversion Hw as [| |? ? mid post Hm _| | | |]; subst.
    exists pre, mid, post. auto.
  - intros (pre & mid & post & -> & Hm).
    constructor; [apply matches_star_any|].
    constructor; [assumption|apply matches_star_any].
Qed.

End RegexFacts.

(* ===================================================================== *)
(** * The token classifier/converter *)
(* ===================================================================== *)

Section ConverterFacts.

Variable db : unicode_db.

Lemma gdt_search_spec (text : str) :
  search (gdt_pattern db) text = true <-> has_gdt_callout db text.
Proof.
  rewrite search_spec. unfold has_gdt_callout, gdt_pattern. split.
  - intros (pre & mid & post & -> & Hm).
    inversion Hm as [| |? ? s1 w H1 Hw| | | |]; subst.
    inversion Hw as [| |? ? s2 s3 H2 H3| | | |]; subst.
    inversion H1; inversion H2; inversion H3; subst.
    exists pre. do 3 eexists. exists post. simpl. eauto.
  - intros (pre & d1 & x & d2 & post & -> & H1 & Hx & H2).
    exists pre, [d1; x; d2], post. split; [reflexivity|].
    change [d1; x; d2] with ([d1] ++ [x] ++ [d2]).
    repeat constructor; assumption.
Qed.

(** What [split_tolerance] returns, by cases on the signs in the token. *)
Lemma split_tolerance_plus (text : str) :
  In PLUS text ->
  exists pre post,
    text = pre ++ PLUS :: post /\ ~ In PLUS pre /\
    split PLUS text = pre :: split PLUS post /\
    split_tolerance text = (pre, PLUS :: post).
Proof.
  intros H. destruct (split_first PLUS text) as [H1 _].
  destruct (H1 H) as (pre & post & Ht & Hpre & Hs).
  exists pre, post. repeat split; try assumption.
  unfold split_tolerance.
  rewrite (proj2 (split_length_gt1 PLUS text) H), Hs.
  cbn [hd skipn]. rewrite drop_0, join_split. reflexivity.
Qed.

Lemma split_tolerance_minus (text : str) :
  ~ In PLUS text -> In MINUS text ->
  exists pre post,
    text = pre ++ MINUS :: post /\ ~ In MINUS pre /\
    split MINUS text = pre :: split MINUS post /\
    split_tolerance text = (pre, MINUS :: post).
Proof.
  intros Hp H. destruct (split_first MINUS text) as [H1 _].
  destruct (H1 H) as (pre & post & Ht & Hpre & Hs).
  exists pre, post. repeat split; try assumption.
  unfold split_tolerance.
  destruct (1 <? length (split PLUS text))%nat eqn:E.
  { apply split_length_gt1 in E. contradiction. }
  rewrite (proj2 (split_length_gt1 MINUS text) H), Hs.
  cbn [hd skipn]. rewrite drop_0, join_split. reflexivity.
Qed.

Lemma split_tolerance_plain (text : str) :
  ~ In PLUS text -> ~ In MINUS text -> split_tolerance text = (text, []).
Proof.
  intros Hp Hm. unfold split_tolerance.
  destruct (1 <? length (split PLUS text))%nat eqn:E.
  { apply split_length_gt1 in E. contradiction. }
  destruct (1 <? length (split MINUS text))%nat eqn:E'.
  { apply split_length_gt1 in E'. contradiction. }
  reflexivity.
Qed.

Lemma split_tolerance_concat (text : str) :
  fst (split_tolerance text) ++ snd (split_tolerance text) = text.
Proof.
  destruct (in_dec N.eq_dec PLUS text) as [Hp|Hp].
  - destruct (split_tolerance_plus text Hp) as (pre & post & Ht & _ & _ & ->).
    simpl. congruence.
  - destruct (in_dec N.eq_dec MINUS text) as [Hm|Hm].
    + destruct (split_tolerance_minus text Hp Hm)
        as (pre & post & Ht & _ & _ & ->).
      simpl. congruence.
    + rewrite split_tolerance_plain by assumption. simpl. apply app_nil_r.
Qed.

Lemma convert_value_unparsed (value_str unit : str) (precision : nat) :
  float_of_str db value_str = None ->
  convert_value db value_str unit precision = value_str.
Proof. unfold convert_value. intros ->. reflexivity. Qed.

Lemma convert_value_mm (value_str : str) (precision : nat) (v : float) :
  float_of_str db value_str = Some v ->
  convert_value db value_str (py "mm") precision =
  format_fixed (fdiv v (literal "25.4")) precision.
Proof. unfold convert_value. intros ->. reflexivity. Qed.

(** The function on a token that passes both filters. *)
Lemma replacement_function_eligible (text : str) :
  contains [DEGREE] text = false ->
  search (gdt_pattern db) text = false ->
  replacement_function db text =
  convert_value db (fst (split_tolerance text)) (py "mm")
    (precision_of (fst (split_tolerance text)))
  ++ snd (split_tolerance text).
Proof.
  intros Hd Hg. unfold replacement_function. rewrite Hd, Hg.
  destruct (split_tolerance text). reflexivity.
Qed.

(** The precision is the length of the second part of the base number
    split at its points. *)
Lemma precision_of_no_point (base : str) :
  ~ In DOT base -> precision_of base = 4%nat.
Proof.
  intros H. unfold precision_of.
  destruct (split_first DOT base) as [_ H2]. rewrite (H2 H). reflexivity.
Qed.

Lemma precision_of_point (ip fp rest : str) :
  ~ In DOT ip -> ~ In DOT fp ->
  (rest = [] \/ exists r, rest = DOT :: r) ->
  precision_of (ip ++ DOT :: fp ++ rest) = length fp.
Proof.
  intros Hip Hfp Hrest. unfold precision_of.
  assert (In DOT (ip ++ DOT :: fp ++ rest)) as Hin.
  { apply in_or_app. right. now left. }
  destruct (split_first DOT (ip ++ DOT :: fp ++ rest)) as [H1 _].
  destruct (H1 Hin) as (pre & post & Ht & Hpre & Hs).
  assert (pre = ip /\ post = fp ++ rest) as [-> ->].
  { clear - Ht Hip Hpre. revert pre Ht Hpre.
    induction ip as [|a ip IH]; intros [|b pre]; simpl; intros Ht Hpre.
    - injection Ht as ->. auto.
    - injection Ht as <- _. exfalso. apply Hpre. now left.
    - injection Ht as -> _. exfalso. apply Hip. now left.
    - injection Ht as -> Ht. destruct (IH (fun H => Hip (or_intror H)) pre Ht)
        as [-> ->]; auto. }
  rewrite Hs. pose proof (split_nonempty DOT (fp ++ rest)) as Hne.
  destruct (split DOT (fp ++ rest)) as [|q qs] eqn:Eq; [contradiction|].
  simpl. f_equal.
  destruct Hrest as [->|[r ->]].
  - rewrite app_nil_r in Eq. destruct (split_first DOT fp) as [_ H2].
    rewrite (H2 Hfp) in Eq. congruence.
  - destruct (split_first DOT (fp ++ DOT :: r)) as [H3 _].
    destruct H3 as (pre' & post' & Ht' & Hpre' & Hs').
    { apply in_or_app. right. now left. }
    rewrite Hs' in Eq. injection Eq as <- _.
    clear - Ht' Hfp Hpre'. revert pre' Ht' Hpre'.
    induction fp as [|a fp IH]; intros [|b pre']; simpl; intros Ht Hpre.
    + reflexivity.
    + injection Ht as <- _. exfalso. apply Hpre. now left.
    + injection Ht as -> _. exfalso. apply Hfp. now left.
    + injection Ht as -> Ht. f_equal.
      apply IH; auto. intros H. apply Hfp. now right.
Qed.

(** ** Base numbers made of digits, points and signs

    A string of the characters [[0-9.+-]] that [float] accepts is a sign,
    digits, and possibly a point and digits. *)

Lemma span_digits_spec (s : str) :
  exists ds,
    s = ds ++ snd (span_digits s) /\ forallb ascii_isdigit ds = true /\
    length ds = length (fst (span_digits s)) /\
    match snd (span_digits s) with
    | [] => True
    | c :: _ => ascii_isdigit c = false
    end.
Proof.
  induction s as [|c s (ds & Hs & Hds & Hlen & Hr)]; simpl.
  - exists []. auto.
  - unfold digit_val. destruct (ascii_isdigit c) eqn:E.
    + destruct (span_digits s) as [vs r]. simpl in *.
      exists (c :: ds). simpl. rewrite E, Hds, Hlen. repeat split; auto.
      congruence.
    + exists []. simpl. auto.
Qed.

Lemma numeric_transform_id (s : str) :
  forallb numeric_char s = true -> transform_decimal_and_space db s = s.
Proof.
  induction s as [|c s IH]; simpl; [reflexivity|].
  intros H. apply andb_true_iff in H as [Hc Hs].
  assert ((c <? 127)%N = true) as ->.
  { unfold numeric_char, ascii_isdigit, char_eqb, DOT, PLUS, MINUS in Hc.
    apply N.ltb_lt. rewrite !orb_true_iff, andb_true_iff in Hc.
    rewrite !N.eqb_eq, !N.leb_le in Hc. lia. }
  now rewrite IH.
Qed.

Lemma numeric_char_cases (c : char) :
  numeric_char c = true ->
  ascii_isdigit c = true \/ c = DOT \/ c = PLUS \/ c = MINUS.
Proof.
  unfold numeric_char. rewrite !orb_true_iff, !char_eqb_eq. tauto.
Qed.

Lemma numeric_no_underscore (s : str) :
  forallb numeric_char s = true -> contains [UNDERSCORE] s = false.
Proof.
  intros H. destruct (contains [UNDERSCORE] s) eqn:E; [|reflexivity].
  apply contains_single in E. rewrite forallb_forall in H.
  specialize (H _ E). discriminate.
Qed.

Lemma c_lstrip_numeric (s : str) :
  forallb numeric_char s = true -> c_lstrip s = s.
Proof.
  destruct s as [|c s]; simpl; [reflexivity|].
  intros H. apply andb_true_iff in H as [Hc _].
  destruct (c_isspace c) eqn:E; [|reflexivity].
  exfalso. apply numeric_char_cases in Hc.
  unfold c_isspace, ascii_isdigit, DOT, PLUS, MINUS in *.
  rewrite orb_true_iff, andb_true_iff, N.eqb_eq, !N.leb_le in E.
  rewrite andb_true_iff, !N.leb_le in Hc. lia.
Qed.

Lemma c_strip_numeric (s : str) :
  forallb numeric_char s = true -> c_strip s = s.
Proof.
  intros H. unfold c_strip. rewrite (c_lstrip_numeric s H).
  rewrite c_lstrip_numeric; [apply rev_involutive|].
  rewrite forallb_forall in *. intros c Hc. apply H. now apply in_rev.
Qed.

Lemma scan_sign_spec (s : str) :
  exists sg, s = sg ++ snd (scan_sign s) /\ ~ In DOT sg.
Proof.
  destruct s as [|c s]; simpl.
  - exists []. auto.
  - destruct (char_eqb c MINUS) eqn:E1; [|destruct (char_eqb c PLUS) eqn:E2].
    + apply char_eqb_eq in E1. subst. exists [MINUS]. split; [reflexivity|].
      intros [H|[]]. discriminate.
    + apply char_eqb_eq in E2. subst. exists [PLUS]. split; [reflexivity|].
      intros [H|[]]. discriminate.
    + exists []. auto.
Qed.

Lemma parse_inf_or_nan_numeric (s : str) :
  forallb numeric_char s = true -> parse_inf_or_nan s = None.
Proof.
  intros H. unfold parse_inf_or_nan.
  destruct (scan_sign_spec s) as (sg & Hs & _).
  destruct (scan_sign s) as [neg body]. simpl in Hs.
  assert (forallb numeric_char body = true) as Hb.
  { rewrite Hs, forallb_app in H. now apply andb_true_iff in H as [_ ?]. }
  assert (forall c t, map ascii_lower body = c :: t ->
            c <> 105%N /\ c <> 110%N) as Hhead.
  { intros c t E. destruct body as [|b body]; [discriminate|].
    simpl in E, Hb. injection E as <- _. apply andb_true_iff in Hb as [Hb _].
    apply numeric_char_cases in Hb. unfold ascii_lower.
    unfold ascii_isdigit, DOT, PLUS, MINUS in Hb.
    rewrite andb_true_iff, !N.leb_le in Hb.
    destruct ((65 <=? b) && (b <=? 90))%N eqn:E; [|lia].
    rewrite andb_true_iff, !N.leb_le in E. lia. }
  destruct (map ascii_lower body) as [|c t] eqn:E; [reflexivity|].
  destruct (Hhead c t eq_refl) as [H1 H2].
  assert (forall w : string,
            (hd 0%N (of_ascii w) = 105%N \/ hd 0%N (of_ascii w) = 110%N) ->
            of_ascii w <> [] ->
            str_eqb (c :: t) (of_ascii w) = false) as Hne.
  { intros w Hw Hnil. destruct (str_eqb (c :: t) (of_ascii w)) eqn:Ec;
      [|reflexivity].
    apply str_eqb_eq in Ec. rewrite <- Ec in Hw. simpl in Hw.
    destruct Hw; contradiction. }
  rewrite !Hne by (try (left; reflexivity); try (right; reflexivity);
                   discriminate).
  reflexivity.
Qed.

Lemma scan_exponent_numeric (s : str) :
  forallb numeric_char s = true -> scan_exponent s = (0%Z, s).
Proof.
  destruct s as [|c t]; simpl; [reflexivity|].
  intros H. apply andb_true_iff in H as [Hc _].
  assert (is_e c = false) as ->; [|reflexivity].
  unfold is_e. apply numeric_char_cases in Hc.
  destruct (char_eqb c 101 || char_eqb c 69)%N eqn:E; [|reflexivity].
  rewrite orb_true_iff, !char_eqb_eq in E.
  unfold ascii_isdigit, DOT, PLUS, MINUS in Hc.
  rewrite andb_true_iff, !N.leb_le in Hc. lia.
Qed.

(** The shape of a numeric string that parses. *)
Lemma numeric_parse_shape (base : str) (v : float) :
  forallb numeric_char base = true ->
  float_of_str db base = Some v ->
  ~ In DOT base \/
  exists pre fp,
    base = pre ++ DOT :: fp /\ ~ In DOT pre /\
    forallb ascii_isdigit fp = true.
Proof.
  intros Hnum Hf. unfold float_of_str in Hf.
  rewrite (numeric_transform_id base Hnum) in Hf.
  rewrite (numeric_no_underscore base Hnum) in Hf.
  rewrite (c_strip_numeric base Hnum) in Hf.
  unfold string_to_double in Hf.
  rewrite (parse_inf_or_nan_numeric base Hnum) in Hf.
  destruct (parse_decimal base) as [x|] eqn:Hp; [|discriminate].
  clear Hf. unfold parse_decimal in Hp.
  destruct (scan_sign_spec base) as (sg & Hbase & Hsg).
  destruct (scan_sign base) as [neg s1]. simpl in Hbase.
  destruct (span_digits_spec s1) as (ds1 & Hs1 & Hds1 & _ & _).
  destruct (span_digits s1) as [ip s2]. simpl in Hs1.
  assert (forall ds, forallb ascii_isdigit ds = true -> ~ In DOT ds) as Hnodot.
  { intros ds Hds Hin. rewrite forallb_forall in Hds.
    specialize (Hds _ Hin). discriminate. }
  destruct s2 as [|c t].
  { left. rewrite Hbase, Hs1, app_nil_r. intros Hin.
    apply in_app_or in Hin as [Hin|Hin]; [contradiction|].
    now apply (Hnodot ds1). }
  destruct (char_eqb c DOT) eqn:Ec.
  - apply char_eqb_eq in Ec. subst c. right.
    destruct (span_digits_spec t) as (ds2 & Ht & Hds2 & _ & _).
    destruct (span_digits t) as [fp s3]. simpl in Ht.
    destruct (ip ++ fp); [discriminate|].
    assert (forallb numeric_char s3 = true) as Hs3.
    { rewrite Hbase, Hs1, Ht in Hnum. rewrite ?forallb_app in Hnum.
      cbn [forallb] in Hnum.
      rewrite ?forallb_app, ?andb_true_iff in Hnum. tauto. }
    rewrite (scan_exponent_numeric s3 Hs3) in Hp.
    destruct s3; [|discriminate].
    exists (sg ++ ds1), ds2. rewrite app_nil_r in Ht.
    rewrite Hbase, Hs1, Ht, <- app_assoc. split; [reflexivity|].
    split; [|exact Hds2].
    intros Hin. apply in_app_or in Hin as [Hin|Hin]; [contradiction|].
    now apply (Hnodot ds1).
  - exfalso. destruct (ip ++ []); [discriminate|].
    assert (forallb numeric_char (c :: t) = true) as Hs3.
    { rewrite Hbase, Hs1 in Hnum.
      rewrite ?forallb_app, ?andb_true_iff in Hnum. tauto. }
    rewrite (scan_exponent_numeric _ Hs3) in Hp. discriminate.
Qed.

Lemma after_point_app (pre fp : str) :
  ~ In DOT pre -> after_point (pre ++ DOT :: fp) = fp.
Proof.
  induction pre as [|a pre IH]; simpl; intros Hpre.
  - reflexivity.
  - destruct (char_eqb a DOT) eqn:E.
    + apply char_eqb_eq in E. exfalso. apply Hpre. now left.
    + apply IH. intros H. apply Hpre. now right.
Qed.

Lemma stated_precision_point (pre fp : str) :
  ~ In DOT pre -> forallb (isdecimal db) fp = true ->
  stated_precision db (pre ++ DOT :: fp) = length fp.
Proof.
  intros Hpre Hfp. unfold stated_precision, digits_after_point.
  assert (contains [DOT] (pre ++ DOT :: fp) = true) as ->.
  { apply contains_single. apply in_or_app. right. now left. }
  rewrite after_point_app by assumption.
  induction fp as [|a fp IH]; [reflexivity|].
  cbn [forallb] in Hfp. apply andb_true_iff in Hfp as [Ha Hfp].
  cbn [List.filter]. rewrite Ha. cbn [length]. f_equal. auto.
Qed.

Lemma isdecimal_point (fp : str) :
  forallb (isdecimal db) fp = true -> ~ In DOT fp.
Proof.
  intros Hfp Hin. rewrite forallb_forall in Hfp. specialize (Hfp _ Hin).
  revert Hfp. vm_compute. discriminate.
Qed.

Lemma ascii_digits_decimal (fp : str) :
  forallb ascii_isdigit fp = true -> forallb (isdecimal db) fp = true.
Proof.
  rewrite !forallb_forall. intros H c Hc. specialize (H c Hc).
  unfold isdecimal, todecimal. rewrite H.
  assert (is_ascii c = true) as ->; [|reflexivity].
  unfold is_ascii, ascii_isdigit in *. apply N.ltb_lt.
  rewrite andb_true_iff, !N.leb_le in H. lia.
Qed.

(** For a base number made of digits, points and signs that parses, the
    precision is the count of digits after its point. *)
Lemma numeric_precision (base : str) (v : float) :
  forallb numeric_char base = true ->
  float_of_str db base = Some v ->
  precision_of base = stated_precision db base.
Proof.
  intros Hnum Hf.
  destruct (numeric_parse_shape base v Hnum Hf) as [Hn|(pre & fp & -> & Hpre & Hfp)].
  - rewrite precision_of_no_point by assumption.
    unfold stated_precision.
    destruct (contains [DOT] base) eqn:E; [|reflexivity].
    apply contains_single in E. contradiction.
  - apply ascii_digits_decimal in Hfp.
    rewrite stated_precision_point by assumption.
    pose proof (precision_of_point pre fp [] Hpre (isdecimal_point fp Hfp)
                  (or_introl eq_refl)) as Hp.
    now rewrite app_nil_r in Hp.
Qed.

Lemma numeric_base (text : str) :
  forallb numeric_char text = true ->
  forallb numeric_char (fst (split_tolerance text)) = true.
Proof.
  intros H. rewrite <- (split_tolerance_concat text), forallb_app in H.
  now apply andb_true_iff in H as [? _].
Qed.

(** A token made of digits, points and signs passes both filters. *)
Lemma numeric_eligible (text : str) :
  forallb numeric_char text = true ->
  contains [DEGREE] text = false /\ search (gdt_pattern db) text = false.
Proof.
  intros H. rewrite forallb_forall in H. split.
  - destruct (contains [DEGREE] text) eqn:E; [|reflexivity].
    apply contains_single in E. specialize (H _ E). discriminate.
  - destruct (search (gdt_pattern db) text) eqn:E; [|reflexivity].
    apply gdt_search_spec in E
      as (pre & d1 & x & d2 & post & -> & _ & Hx & _).
    assert (numeric_char x = true) as Hn.
    { apply H. apply in_or_app. right. right. now left. }
    exfalso. apply numeric_char_cases in Hn. unfold is_x in Hx.
    rewrite orb_true_iff, !char_eqb_eq in Hx.
    unfold ascii_isdigit, DOT, PLUS, MINUS in Hn.
    rewrite andb_true_iff, !N.leb_le in Hn. lia.
Qed.

End ConverterFacts.

(* ===================================================================== *)
(** * Running the model on the examples of the specification *)
(* ===================================================================== *)

Section Examples.

Variable db : unicode_db.

Example convert_25_40 :
  replacement_function db (py "25.40") = py "1.00".
Proof. vm_compute. reflexivity. Qed.

Example convert_tolerance :
  replacement_function db (py "10+0.5") = py "0.3937+0.5".
Proof. vm_compute. reflexivity. Qed.

Example convert_50_0 :
  replacement_function db (py "50.0") = py "2.0".
Proof. vm_compute. reflexivity. Qed.

Example skip_gdt :
  replacement_function db (py "4x10") = py "4x10".
Proof. vm_compute. reflexivity. Qed.

Example skip_degree :
  replacement_function db (py "45" ++ [DEGREE]) = py "45" ++ [DEGREE].
Proof. vm_compute. reflexivity. Qed.

Example invalid_numeric :
  replacement_function db (py "12.5.6") = py "12.5.6".
Proof. vm_compute. reflexivity. Qed.

Example leading_minus :
  replacement_function db (py "-5-0.2") = py "-5-0.2".
Proof. vm_compute. reflexivity. Qed.

Example whole_run :
  process_pdf db no_failure (py "input.pdf") (py "output_converted.pdf")
    [sample_page] [] =
  (Returned tt,
   [EvOpen (py "input.pdf"); EvGetText 0;
    EvAddRedactAnnot 0 (rep_bbox sample_replacement) white;
    EvApplyRedactions 0;
    EvInsertTextbox 0 (rep_bbox sample_replacement) (py "1.00")
      (py "Helvetica") (literal "10") (color_int 0) 0 true;
    EvSave (py "output_converted.pdf");
    EvStartfile (py "output_converted.pdf")]).
Proof. vm_compute. reflexivity. Qed.

Example whole_run_untouched :
  process_pdf db no_failure (py "input.pdf") (py "output_converted.pdf")
    [sample_line [sample_span "R 5." "0" "0" "20" "9"]] [] =
  (Returned tt,
   [EvOpen (py "input.pdf"); EvGetText 0;
    EvSave (py "output_converted.pdf");
    EvStartfile (py "output_converted.pdf")]).
Proof. vm_compute. reflexivity. Qed.

End Examples.

(* ===================================================================== *)
(** * Properties of the classifier/converter *)
(* ===================================================================== *)

(** C4. A token is split on its first [+] when it has one (the base number
    is the text before it; the tolerance is [+] followed by the remaining
    parts rejoined with [+], that is, the text from the first [+] on),
    otherwise on its first [-] in the same way, otherwise not at all; for
    a token that passes the two filters the result is the converted base
    followed by the tolerance as it stands, and ["10+0.5"] gives
    ["0.3937+0.5"]. *)
Theorem tolerance_split (db : unicode_db) (text : str) :
  (In PLUS text ->
     exists pre post,
       text = pre ++ PLUS :: post /\ ~ In PLUS pre /\
       split PLUS text = pre :: split PLUS post /\
       join [PLUS] (split PLUS post) = post /\
       split_tolerance text = (pre, PLUS :: post)) /\
  (~ In PLUS text -> In MINUS text ->
     exists pre post,
       text = pre ++ MINUS :: post /\ ~ In MINUS pre /\
       split MINUS text = pre :: split MINUS post /\
       join [MINUS] (split MINUS post) = post /\
       split_tolerance text = (pre, MINUS :: post)) /\
  (~ In PLUS text -> ~ In MINUS text -> split_tolerance text = (text, [])) /\
  (contains [DEGREE] text = false ->
   search (gdt_pattern db) text = false ->
   replacement_function db text =
   convert_value db (fst (split_tolerance text)) (py "mm")
     (precision_of (fst (split_tolerance text)))
   ++ snd (split_tolerance text)) /\
  split_tolerance (py "10+0.5") = (py "10", py "+0.5") /\
  convert_value db (py "10") (py "mm") (precision_of (py "10")) = py "0.3937" /\
  replacement_function db (py "10+0.5") = py "0.3937+0.5".
Proof.
  split; [|split; [|split; [|split; [|split; [|split]]]]].
  - intros H.
    destruct (split_tolerance_plus text H) as (pre & post & ? & ? & ? & ?).
    exists pre, post. repeat split; try assumption. apply join_split.
  - intros Hp H.
    destruct (split_tolerance_minus text Hp H) as (pre & post & ? & ? & ? & ?).
    exists pre, post. repeat split; try assumption. apply join_split.
  - apply split_tolerance_plain.
  - apply replacement_function_eligible.
  - vm_compute. reflexivity.
  - vm_compute. reflexivity.
  - vm_compute. reflexivity.
Qed.

Lemma tolerance_split_witness :
  In PLUS (py "-5+0.2") /\
  (~ In PLUS (py "5-0.2") /\ In MINUS (py "5-0.2")) /\
  (~ In PLUS (py "25.40") /\ ~ In MINUS (py "25.40")) /\
  split_tolerance (py "-5+0.2") = (py "-5", py "+0.2") /\
  split_tolerance (py "5-0.2") = (py "5", py "-0.2") /\
  split_tolerance (py "25.40") = (py "25.40", []) /\
  replacement_function ascii_db (py "5-0.2") = py "0.1969-0.2".
Proof.
  assert (forall c s, contains [c] (of_ascii s) = false -> ~ In c (of_ascii s))
    as Hnot.
  { intros c s H Hin. apply contains_single in Hin. congruence. }
  assert (In PLUS (py "-5+0.2")) as H1 by (apply contains_single; reflexivity).
  assert (~ In PLUS (py "5-0.2")) as H2 by (apply Hnot; reflexivity).
  assert (In MINUS (py "5-0.2")) as H3 by (apply contains_single; reflexivity).
  assert (~ In PLUS (py "25.40")) as H4 by (apply Hnot; reflexivity).
  assert (~ In MINUS (py "25.40")) as H5 by (apply Hnot; reflexivity).
  split; [exact H1|]. split; [exact (conj H2 H3)|]. split; [exact (conj H4 H5)|].
  split; [|split; [|split]].
  - destruct (tolerance_split ascii_db (py "-5+0.2")) as [Hp _].
    destruct (Hp H1) as (pre & post & _ & _ & _ & _ & Hs).
    rewrite Hs. vm_compute in Hs. injection Hs as <- <-. reflexivity.
  - destruct (tolerance_split ascii_db (py "5-0.2")) as (_ & Hm & _).
    destruct (Hm H2 H3) as (pre & post & _ & _ & _ & _ & Hs).
    rewrite Hs. vm_compute in Hs. injection Hs as <- <-. reflexivity.
  - destruct (tolerance_split ascii_db (py "25.40")) as (_ & _ & Hn & _).
    exact (Hn H4 H5).
  - destruct (tolerance_split ascii_db (py "5-0.2")) as (_ & _ & _ & Hr & _).
    rewrite (Hr eq_refl eq_refl). vm_compute. reflexivity.
Defined.

(** C5 as stated fails: ["1.5e3"] parses as a number and has two digits
    after its point (one before the exponent), and it is converted with
    three decimal places. *)
Lemma exponent_precision_counterexample :
  ~ (forall (db : unicode_db) (text : str) (v : float),
       contains [DEGREE] text = false ->
       search (gdt_pattern db) text = false ->
       float_of_str db (fst (split_tolerance text)) = Some v ->
       replacement_function db text =
       format_fixed (fdiv v (literal "25.4"))
         (stated_precision db (fst (split_tolerance text)))
       ++ snd (split_tolerance text)).
Proof.
  intros H.
  assert (exists v, float_of_str ascii_db (py "1.5e3") = Some v) as [v Hv].
  { vm_compute. eexists. reflexivity. }
  specialize (H ascii_db (py "1.5e3") v eq_refl eq_refl Hv).
  revert H. vm_compute in Hv. injection Hv as <-.
  vm_compute. discriminate.
Qed.

(** C5, amended. A base number that parses is divided by 25.4, and the
    quotient is formatted with as many decimal places as there are
    characters between the first point of the base number and its next
    point or its end, and with 4 places when it has no point; this is the
    count of digits after the point when only digits follow it, and so it
    is for every token made of digits, points and signs only, as the
    text of every group is.  ["25.40"] is converted to ["1.00"]. *)
Theorem conversion_precision (db : unicode_db) :
  (forall (text : str) (v : float),
     contains [DEGREE] text = false ->
     search (gdt_pattern db) text = false ->
     float_of_str db (fst (split_tolerance text)) = Some v ->
     replacement_function db text =
     format_fixed (fdiv v (literal "25.4"))
       (precision_of (fst (split_tolerance text)))
     ++ snd (split_tolerance text)) /\
  (forall base, ~ In DOT base -> precision_of base = 4%nat) /\
  (forall ip fp rest,
     ~ In DOT ip -> ~ In DOT fp -> (rest = [] \/ exists r, rest = DOT :: r) ->
     precision_of (ip ++ DOT :: fp ++ rest) = length fp) /\
  (forall ip fp,
     ~ In DOT ip -> forallb (isdecimal db) fp = true ->
     precision_of (ip ++ DOT :: fp) = stated_precision db (ip ++ DOT :: fp)) /\
  (forall (text : str) (v : float),
     forallb numeric_char text = true ->
     float_of_str db (fst (split_tolerance text)) = Some v ->
     replacement_function db text =
     format_fixed (fdiv v (literal "25.4"))
       (stated_precision db (fst (split_tolerance text)))
     ++ snd (split_tolerance text)) /\
  float_of_str db (py "25.40") = Some (literal "25.40") /\
  precision_of (py "25.40") = 2%nat /\
  replacement_function db (py "25.40") = py "1.00".
Proof.
  assert (forall (text : str) (v : float),
     contains [DEGREE] text = false ->
     search (gdt_pattern db) text = false ->
     float_of_str db (fst (split_tolerance text)) = Some v ->
     replacement_function db text =
     format_fixed (fdiv v (literal "25.4"))
       (precision_of (fst (split_tolerance text)))
     ++ snd (split_tolerance text)) as Hconv.
  { intros text v Hd Hg Hv.
    rewrite replacement_function_eligible by assumption.
    rewrite (convert_value_mm db _ _ v Hv). reflexivity. }
  split; [exact Hconv|].
  split; [|split; [|split; [|split; [|split; [|split]]]]].
  - apply precision_of_no_point.
  - apply precision_of_point.
  - intros ip fp Hip Hfp.
    assert (~ In DOT fp) as Hnd.
    { intros Hin. rewrite forallb_forall in Hfp. specialize (Hfp _ Hin).
      revert Hfp. vm_compute. discriminate. }
    pose proof (precision_of_point ip fp [] Hip Hnd (or_introl eq_refl)) as Hp.
    rewrite app_nil_r in Hp. rewrite Hp.
    unfold stated_precision, digits_after_point.
    assert (contains [DOT] (ip ++ DOT :: fp) = true) as ->.
    { apply contains_single. apply in_or_app. right. now left. }
    assert (after_point (ip ++ DOT :: fp) = fp) as ->.
    { clear - Hip. induction ip as [|a ip IH]; simpl.
      - reflexivity.
      - destruct (char_eqb a DOT) eqn:E.
        + apply char_eqb_eq in E. exfalso. apply Hip. now left.
        + apply IH. intros H. apply Hip. now right. }
    clear - Hfp. induction fp as [|a fp IH]; [reflexivity|].
    cbn [forallb] in Hfp. apply andb_true_iff in Hfp as [Ha Hfp].
    cbn [List.filter]. rewrite Ha. cbn [length]. f_equal. auto.
  - intros text v Hnum Hv.
    destruct (numeric_eligible db text Hnum) as [Hd Hg].
    rewrite (Hconv text v Hd Hg Hv).
    rewrite (numeric_precision db _ v (numeric_base text Hnum) Hv).
    reflexivity.
  - vm_compute. reflexivity.
  - vm_compute. reflexivity.
  - vm_compute. reflexivity.
Qed.

Lemma conversion_precision_witness :
  replacement_function ascii_db (py "1.5e3") = py "59.055" /\
  precision_of (py "12.") = 0%nat /\
  precision_of (py "7") = 4%nat /\
  precision_of (py "0.125") = stated_precision ascii_db (py "0.125") /\
  replacement_function ascii_db (py "-12.70+0.05") = py "-0.50+0.05".
Proof.
  destruct (conversion_precision ascii_db) as (Hc & Hn & Hp & Hs & Hnum & _).
  assert (forall c s, contains [c] (of_ascii s) = false -> ~ In c (of_ascii s))
    as Hnot.
  { intros c s H Hin. apply contains_single in Hin. congruence. }
  split; [|split; [|split; [|split]]].
  - rewrite (Hc (py "1.5e3") (literal "1500") eq_refl eq_refl eq_refl).
    vm_compute. reflexivity.
  - apply (Hp (py "12") [] []); [apply Hnot; reflexivity|intros []|now left].
  - apply Hn. apply Hnot. reflexivity.
  - apply (Hs (py "0") (py "125")); [apply Hnot; reflexivity|reflexivity].
  - rewrite (Hnum (py "-12.70+0.05") (literal "-12.70") eq_refl eq_refl).
    vm_compute. reflexivity.
Defined.

(** C6. The token is returned as it is when it has a degree sign, when it
    has a digit, an x and a digit in a row, and when its base number does
    not parse as a float; ["12.5.6"] is such a token. *)
Theorem ineligible_unchanged (db : unicode_db) :
  (forall text : str,
     In DEGREE text \/ has_gdt_callout db text \/
     float_of_str db (fst (split_tolerance text)) = None ->
     replacement_function db text = text) /\
  float_of_str db (py "12.5.6") = None /\
  replacement_function db (py "12.5.6") = py "12.5.6".
Proof.
  split; [|split].
  - intros text H. unfold replacement_function.
    destruct (contains [DEGREE] text) eqn:Hd; [reflexivity|].
    destruct (search (gdt_pattern db) text) eqn:Hg; [reflexivity|].
    destruct H as [H|[H|H]].
    + apply contains_single in H. congruence.
    + apply gdt_search_spec in H. congruence.
    + pose proof (split_tolerance_concat text) as Hc.
      destruct (split_tolerance text) as [b t]. simpl in *.
      rewrite convert_value_unparsed by assumption. exact Hc.
  - vm_compute. reflexivity.
  - vm_compute. reflexivity.
Qed.

Lemma ineligible_unchanged_witness :
  replacement_function ascii_db (py "45" ++ [DEGREE]) = py "45" ++ [DEGREE] /\
  replacement_function ascii_db (py "4x10") = py "4x10" /\
  replacement_function ascii_db (py "-5-0.2") = py "-5-0.2".
Proof.
  destruct (ineligible_unchanged ascii_db) as [H _].
  split; [|split]; apply H.
  - left. apply contains_single. reflexivity.
  - right. left. exists [], 52%N, 120%N, 49%N, (py "0").
    repeat split; reflexivity.
  - right. right. reflexivity.
Defined.

(** C9. The base number followed by the tolerance is the token itself;
    hence, when the base number does not parse, the result, which is the
    base number as it stands followed by the tolerance, is the token. *)
Theorem split_concat (db : unicode_db) (text base_number tolerance : str) :
  split_tolerance text = (base_number, tolerance) ->
  base_number ++ tolerance = text /\
  (float_of_str db base_number = None ->
   (forall unit precision,
      convert_value db base_number unit precision ++ tolerance = text) /\
   replacement_function db text = text).
Proof.
  intros Hs. pose proof (split_tolerance_concat text) as Hc.
  rewrite Hs in Hc. simpl in Hc. split; [exact Hc|].
  intros Hf. split.
  - intros unit precision. rewrite convert_value_unparsed by assumption.
    exact Hc.
  - unfold replacement_function.
    destruct (contains [DEGREE] text); [reflexivity|].
    destruct (search (gdt_pattern db) text); [reflexivity|].
    rewrite Hs. rewrite convert_value_unparsed by assumption. exact Hc.
Qed.

Lemma split_concat_witness :
  py "1.2.3" ++ py "+4" = py "1.2.3+4" /\
  convert_value ascii_db (py "1.2.3") (py "mm") 1 ++ py "+4" = py "1.2.3+4" /\
  replacement_function ascii_db (py "1.2.3+4") = py "1.2.3+4".
Proof.
  destruct (split_concat ascii_db (py "1.2.3+4") (py "1.2.3") (py "+4") eq_refl)
    as [H1 H2].
  destruct (H2 eq_refl) as [H3 H4].
  split; [exact H1|]. split; [apply H3|exact H4].
Defined.

(* ===================================================================== *)
(** * The span grouper *)
(* ===================================================================== *)

Section GrouperFacts.

Variable db : unicode_db.

(** On a trimmed text the pattern [^[0-9\.\+\-]+$] tests what its
    character class says: the newline that [$] tolerates at the end
    cannot be there. *)
Lemma is_numeric_text_spec (raw : str) :
  is_numeric_text db (strip db raw) = true <->
  strip db raw <> [] /\ forallb numeric_char (strip db raw) = true.
Proof.
  unfold is_numeric_text, match_anchored, numeric_pattern.
  rewrite strip_idempotent, orb_true_iff, !accepts_matches. split.
  - intros [H|H].
    + now apply matches_plus_class.
    + exfalso. inversion H as [| |? ? s1 s2 _ H2| | | |]; subst.
      inversion H2 as [|? c Hc| | | | |]; subst.
      apply char_eqb_eq in Hc. subst c.
      match goal with
      | E : _ ++ [LF] = strip db raw |- _ =>
          symmetry in E; apply strip_last in E
      end.
      discriminate.
  - intros [Hne Hall]. left. now apply matches_plus_class_intro.
Qed.

Lemma numeric_span_iff (s : span) :
  span_txt db s <> [] ->
  (is_numeric_text db (span_txt db s) = true <-> numeric_span db s).
Proof.
  intros Hne. unfold numeric_span, span_txt in *.
  rewrite is_numeric_text_spec. reflexivity.
Qed.

Variable thr : float.

Lemma group_run_snoc (spans : list span) (s : span) :
  group_run db thr (spans ++ [s]) = group_step db thr (group_run db thr spans) s.
Proof. unfold group_run. rewrite fold_left_app. reflexivity. Qed.

Lemma group_step_blank (st : gstate) (s : span) :
  blank_span db s -> group_step db thr st s = st.
Proof. unfold blank_span, group_step. intros ->. reflexivity. Qed.

Lemma group_step_close (st : gstate) (s : span) :
  ~ blank_span db s -> ~ numeric_span db s ->
  group_step db thr st s = {| groups := groups st; current := None |}.
Proof.
  unfold blank_span. intros Hb Hn. unfold group_step.
  destruct (span_txt db s) as [|c t] eqn:E; [contradiction|].
  destruct (is_numeric_text db (c :: t)) eqn:En; [|reflexivity].
  exfalso. apply Hn. apply numeric_span_iff; rewrite E; [discriminate|exact En].
Qed.

Lemma group_step_numeric (st : gstate) (s : span) :
  numeric_span db s ->
  group_step db thr st s =
  match open_group st with
  | Some g =>
      if gap_below thr g s then
        {| groups :=
             <[default 0%nat (current st) :=
                 merge_span g (span_txt db s) (span_bbox s)]> (groups st);
           current := current st |}
      else start_group st (span_txt db s) s
  | None => start_group st (span_txt db s) s
  end.
Proof.
  intros Hn. pose proof Hn as [Hne _].
  apply numeric_span_iff in Hn; [|assumption].
  unfold group_step, open_group, gap_below.
  destruct (span_txt db s) as [|c t] eqn:E; [contradiction|].
  rewrite Hn. destruct (current st) as [i|]; [|reflexivity].
  destruct (groups st !! i); reflexivity.
Qed.

Lemma group_step_valid (st : gstate) (s : span) :
  current_valid st -> current_valid (group_step db thr st s).
Proof.
  intros Hv. unfold group_step.
  destruct (span_txt db s) as [|c t]; [exact Hv|].
  destruct (is_numeric_text db (c :: t)); [|exact I].
  assert (forall txt, current_valid (start_group st txt s)) as Hstart.
  { intros txt. unfold current_valid, start_group. simpl.
    rewrite length_app. simpl. lia. }
  destruct (current st) as [i|] eqn:Ec; [|apply Hstart].
  destruct (groups st !! i); [|apply Hstart].
  match goal with |- context [if ?b then _ else _] => destruct b end;
    [|apply Hstart].
  unfold current_valid in *. rewrite Ec in Hv. simpl.
  rewrite length_insert. exact Hv.
Qed.

Lemma group_run_valid (spans : list span) :
  current_valid (group_run db thr spans).
Proof.
  induction spans as [|s spans IH] using rev_ind.
  - exact I.
  - rewrite group_run_snoc. now apply group_step_valid.
Qed.

(** The dict that [current] refers to is the last one of [groups]. *)
Lemma open_group_last (st : gstate) (g : group) :
  current_valid st -> open_group st = Some g ->
  exists front, groups st = front ++ [g] /\ current st = Some (length front).
Proof.
  unfold current_valid, open_group. destruct (current st) as [i|]; [|discriminate].
  intros Hlen Hi. exists (take i (groups st)).
  pose proof (take_drop_middle _ _ _ Hi) as Hm.
  assert (drop (S i) (groups st) = []) as Hd.
  { apply drop_ge. lia. }
  rewrite Hd in Hm. split; [symmetry; exact Hm|].
  f_equal. rewrite length_take. lia.
Qed.

Lemma open_group_of_last (st : gstate) (front : list group) (g : group) :
  groups st = front ++ [g] -> current st = Some (length front) ->
  open_group st = Some g.
Proof.
  unfold open_group. intros -> ->.
  rewrite lookup_app_r by lia. rewrite Nat.sub_diag. reflexivity.
Qed.

(** ** Groups do not extend across a closing span *)

Lemma group_step_shift (front : list group) (st : gstate) (s : span) :
  group_step db thr (shift_state front st) s =
  shift_state front (group_step db thr st s).
Proof.
  unfold group_step.
  destruct (span_txt db s) as [|c t]; [reflexivity|].
  destruct (is_numeric_text db (c :: t)); [|reflexivity].
  assert (forall txt, start_group (shift_state front st) txt s =
                      shift_state front (start_group st txt s)) as Hstart.
  { intros txt. unfold start_group, shift_state. simpl.
    rewrite length_app, app_assoc. reflexivity. }
  destruct st as [gs [i|]]; simpl; [|apply Hstart].
  rewrite lookup_app_r by lia.
  replace (length front + i - length front)%nat with i by lia.
  destruct (gs !! i) as [cur|]; [|apply Hstart].
  match goal with |- context [if ?b then _ else _] => destruct b end;
    [|apply Hstart].
  unfold shift_state. simpl. rewrite insert_app_r. reflexivity.
Qed.

Lemma group_fold_shift (front : list group) (spans : list span) (st : gstate) :
  fold_left (group_step db thr) spans (shift_state front st) =
  shift_state front (fold_left (group_step db thr) spans st).
Proof.
  revert st. induction spans as [|s spans IH]; intros st; simpl.
  - reflexivity.
  - rewrite group_step_shift. apply IH.
Qed.

Lemma group_run_closed (l1 l2 : list span) (s : span) :
  ~ blank_span db s -> ~ numeric_span db s ->
  group_numeric_spans db (l1 ++ s :: l2) thr =
  group_numeric_spans db l1 thr ++ group_numeric_spans db l2 thr.
Proof.
  intros Hb Hn. unfold group_numeric_spans, group_run.
  rewrite fold_left_app. simpl.
  rewrite group_step_close by assumption.
  set (front := groups (fold_left (group_step db thr) l1 group_init)).
  replace {| groups := front; current := None |}
    with (shift_state front group_init).
  - rewrite group_fold_shift. reflexivity.
  - unfold shift_state, group_init. simpl. rewrite app_nil_r. reflexivity.
Qed.

End GrouperFacts.

(* ===================================================================== *)
(** * Properties of the span grouper *)
(* ===================================================================== *)

(** C1 as stated fails: a span of white space is not purely numeric, yet
    it does not close the open group; the spans ["1"], [" "], ["2"] give
    the single group ["12"]. *)
Lemma blank_span_counterexample :
  ~ (forall (db : unicode_db) (thr : float) (spans : list span) (s : span),
       is_numeric_text db (span_txt db s) = false ->
       open_group (group_run db thr (spans ++ [s])) = None) /\
  is_numeric_text ascii_db (span_txt ascii_db (sample_span " " "5" "0" "6" "9"))
    = false /\
  group_numeric_spans ascii_db
    [sample_span "1" "0" "0" "5" "9";
     sample_span " " "5" "0" "6" "9";
     sample_span "2" "6" "0" "11" "9"] default_gap_threshold
  = [sample_group "12" "0" "0" "11" "9"].
Proof.
  split; [|split].
  - intros H.
    specialize (H ascii_db default_gap_threshold
                  [sample_span "1" "0" "0" "5" "9"]
                  (sample_span " " "5" "0" "6" "9") eq_refl).
    revert H. vm_compute. discriminate.
  - vm_compute. reflexivity.
  - vm_compute. reflexivity.
Qed.

(** C1, amended. Let the loop have read [spans] and read [s] next.  The
    open group, if there is one, is the last group.  A span that is blank
    once trimmed changes nothing.  A purely numeric span is merged into
    the open group exactly when there is one and the span's left edge
    minus the group's right edge is below the threshold; otherwise it
    starts a new group, which is then the open one.  A span that is
    neither blank nor purely numeric closes the open group, and the
    groups of the spans before it and of those after it are formed
    apart. *)
Theorem grouping_rule (db : unicode_db) (thr : float)
    (spans : list span) (s : span) :
  let st := group_run db thr spans in
  let st' := group_run db thr (spans ++ [s]) in
  (forall g, open_group st = Some g ->
     exists front, groups st = front ++ [g]) /\
  (blank_span db s -> st' = st) /\
  (numeric_span db s ->
     forall g front,
       open_group st = Some g -> groups st = front ++ [g] ->
       gap_below thr g s = true ->
       groups st' = front ++ [merge_span g (span_txt db s) (span_bbox s)] /\
       open_group st' = Some (merge_span g (span_txt db s) (span_bbox s))) /\
  (numeric_span db s ->
     open_group st = None \/
     (exists g, open_group st = Some g /\ gap_below thr g s = false) ->
     groups st' = groups st ++ [new_group (span_txt db s) s] /\
     open_group st' = Some (new_group (span_txt db s) s)) /\
  (~ blank_span db s -> ~ numeric_span db s ->
     groups st' = groups st /\ open_group st' = None /\
     forall rest,
       group_numeric_spans db (spans ++ s :: rest) thr =
       group_numeric_spans db spans thr ++ group_numeric_spans db rest thr).
Proof.
  intros st st'.
  assert (st' = group_step db thr st s) as Hst' by apply group_run_snoc.
  pose proof (group_run_valid db thr spans) as Hv. fold st in Hv.
  split; [|split; [|split; [|split]]].
  - intros g Hg. destruct (open_group_last st g Hv Hg) as (front & Hf & _).
    exists front. exact Hf.
  - intros Hb. rewrite Hst'. now apply group_step_blank.
  - intros Hn g front Hg Hf Hgap.
    destruct (open_group_last st g Hv Hg) as (front' & Hf' & Hc).
    assert (front' = front) as ->.
    { rewrite Hf in Hf'. apply app_inj_tail in Hf' as [? _]. congruence. }
    rewrite Hst', (group_step_numeric db thr st s Hn), Hg, Hgap, Hc, Hf.
    assert (forall x : group,
              <[length front := x]> (front ++ [g]) = front ++ [x]) as Hins.
    { intros x. replace (length front) with (length front + 0)%nat by lia.
      rewrite insert_app_r. reflexivity. }
    cbn [default from_option groups]. unfold id. rewrite Hins.
    split; [reflexivity|].
    eapply open_group_of_last; reflexivity.
  - intros Hn Hopen.
    assert (group_step db thr st s = start_group st (span_txt db s) s) as Hs.
    { rewrite (group_step_numeric db thr st s Hn).
      destruct Hopen as [->|(g & -> & ->)]; reflexivity. }
    rewrite Hst', Hs. split; [reflexivity|].
    eapply open_group_of_last; reflexivity.
  - intros Hb Hn. rewrite Hst', (group_step_close db thr st s Hb Hn).
    split; [reflexivity|]. split; [reflexivity|].
    intros rest. now apply group_run_closed.
Qed.

Lemma grouping_rule_witness :
  let a := sample_span "1" "0" "0" "5" "9" in
  group_run ascii_db default_gap_threshold [a; sample_span " " "5" "0" "6" "9"]
    = group_run ascii_db default_gap_threshold [a] /\
  groups (group_run ascii_db default_gap_threshold
            [a; sample_span "2" "6" "0" "11" "9"])
    = [sample_group "12" "0" "0" "11" "9"] /\
  groups (group_run ascii_db default_gap_threshold
            [a; sample_span "2" "8" "0" "13" "9"])
    = [sample_group "1" "0" "0" "5" "9"; sample_group "2" "8" "0" "13" "9"] /\
  open_group (group_run ascii_db default_gap_threshold
                [a; sample_span "mm" "6" "0" "20" "9"]) = None.
Proof.
  intros a.
  assert (forall t l r, numeric_char (hd 0%N (of_ascii t)) = true ->
            strip ascii_db (of_ascii t) = of_ascii t ->
            forallb numeric_char (of_ascii t) = true ->
            of_ascii t <> [] ->
            numeric_span ascii_db (sample_span t l "0" r "9")) as Hnum.
  { intros t l r _ Hs Hall Hne. unfold numeric_span, span_txt. simpl.
    rewrite Hs. auto. }
  split; [|split; [|split]].
  - apply (grouping_rule ascii_db default_gap_threshold [a]
             (sample_span " " "5" "0" "6" "9")).
    reflexivity.
  - destruct (grouping_rule ascii_db default_gap_threshold [a]
                (sample_span "2" "6" "0" "11" "9")) as (_ & _ & Hm & _).
    destruct (Hm (Hnum "2"%string "6"%string "11"%string
                    eq_refl eq_refl eq_refl ltac:(discriminate))
                 (sample_group "1" "0" "0" "5" "9") []
                 eq_refl eq_refl eq_refl) as [Hg _].
    etransitivity; [exact Hg|]. vm_compute. reflexivity.
  - destruct (grouping_rule ascii_db default_gap_threshold [a]
                (sample_span "2" "8" "0" "13" "9")) as (_ & _ & _ & Hs & _).
    destruct (Hs (Hnum "2"%string "8"%string "13"%string
                    eq_refl eq_refl eq_refl ltac:(discriminate))) as [Hg _].
    + right. exists (sample_group "1" "0" "0" "5" "9").
      split; reflexivity.
    + etransitivity; [exact Hg|]. vm_compute. reflexivity.
  - destruct (grouping_rule ascii_db default_gap_threshold [a]
                (sample_span "mm" "6" "0" "20" "9")) as (_ & _ & _ & _ & Hc).
    apply Hc.
    + unfold blank_span. vm_compute. discriminate.
    + unfold numeric_span. vm_compute. intros [_ H]. discriminate.
Defined.

(** C2 fails on the code: the right edge of a group is that of the span
    merged last, not the greatest one.  The span ["12"] from 0 to 10
    followed by the span ["."] from 6 to 9 gives one group whose box ends
    at 9, to the left of the right edge of its first member. *)
Theorem merged_right_edge_shrinks (db : unicode_db) :
  let a := sample_span "12" "0" "0" "10" "9" in
  let b := sample_span "." "6" "0" "9" "9" in
  group_numeric_spans db [a; b] default_gap_threshold
    = [sample_group "12." "0" "0" "9" "9"] /\
  flt (x1 (g_bbox (sample_group "12." "0" "0" "9" "9"))) (x1 (span_bbox a))
    = true.
Proof. split; vm_compute; reflexivity. Qed.

Section GroupMembers.

Variable db : unicode_db.
Variable thr : float.

Lemma group_of_members_mono (seen : list span) (s : span) (g : group) :
  group_of_members db seen g -> group_of_members db (seen ++ [s]) g.
Proof.
  intros (ms & Hne & Hnum & Hin & Ht). exists ms.
  repeat split; try assumption.
  intros m Hm. apply in_or_app. left. now apply Hin.
Qed.

Lemma group_of_members_new (seen : list span) (s : span) :
  numeric_span db s ->
  group_of_members db (seen ++ [s]) (new_group (span_txt db s) s).
Proof.
  intros Hn. exists [s]. split; [discriminate|]. split; [now constructor|].
  split.
  - intros m [<-|[]]. apply in_or_app. right. now left.
  - unfold members_text. simpl. now rewrite app_nil_r.
Qed.

Lemma group_of_members_merge (seen : list span) (s : span) (g : group) :
  numeric_span db s -> group_of_members db seen g ->
  group_of_members db (seen ++ [s]) (merge_span g (span_txt db s) (span_bbox s)).
Proof.
  intros Hn (ms & Hne & Hnum & Hin & Ht). exists (ms ++ [s]).
  split; [now destruct ms|]. split; [|split].
  - apply Forall_app. split; [assumption|now constructor].
  - intros m Hm. apply in_app_or in Hm as [Hm|Hm]; apply in_or_app.
    + left. now apply Hin.
    + right. exact Hm.
  - unfold members_text in *. simpl. rewrite Ht, map_app, concat_app. simpl.
    now rewrite app_nil_r.
Qed.

(** Every group is made of purely numeric spans of the input. *)
Lemma groups_have_members (spans : list span) :
  Forall (group_of_members db spans) (groups (group_run db thr spans)).
Proof.
  induction spans as [|s spans IH] using rev_ind; [constructor|].
  rewrite group_run_snoc. set (st := group_run db thr spans) in *.
  assert (Forall (group_of_members db (spans ++ [s])) (groups st)) as IH'.
  { eapply Forall_impl; [exact IH|]. intros g. apply group_of_members_mono. }
  destruct (span_txt db s) as [|c t] eqn:Etxt.
  { rewrite group_step_blank by exact Etxt. exact IH'. }
  assert (~ blank_span db s) as Hnb.
  { unfold blank_span. rewrite Etxt. discriminate. }
  destruct (is_numeric_text db (span_txt db s)) eqn:En.
  - assert (numeric_span db s) as Hn.
    { apply numeric_span_iff; [rewrite Etxt; discriminate|exact En]. }
    rewrite (group_step_numeric db thr st s Hn).
    assert (Forall (group_of_members db (spans ++ [s]))
              (groups (start_group st (span_txt db s) s))) as Hstart.
    { unfold start_group. simpl. apply Forall_app. split; [exact IH'|].
      constructor; [|constructor]. now apply group_of_members_new. }
    destruct (open_group st) as [g|] eqn:Eo; [|exact Hstart].
    destruct (gap_below thr g s); [|exact Hstart].
    simpl. apply Forall_insert; [exact IH'|].
    apply group_of_members_merge; [exact Hn|].
    unfold open_group in Eo. destruct (current st) as [i|]; [|discriminate].
    eapply (Forall_lookup_1 _ _ _ _ IH). exact Eo.
  - assert (~ numeric_span db s) as Hn.
    { intros Hn. apply numeric_span_iff in Hn; [congruence|].
      rewrite Etxt. discriminate. }
    rewrite group_step_close by assumption. exact IH'.
Qed.

Lemma members_text_numeric (ms : list span) :
  Forall (numeric_span db) ms ->
  forallb numeric_char (members_text db ms) = true.
Proof.
  unfold members_text. induction 1 as [|m ms [_ Hm] _ IH]; [reflexivity|].
  simpl. rewrite forallb_app, Hm, IH. reflexivity.
Qed.

Lemma members_text_nonempty (ms : list span) :
  ms <> [] -> Forall (numeric_span db) ms -> members_text db ms <> [].
Proof.
  unfold members_text. intros Hne Hall.
  destruct Hall as [|m ms [Hm _] _]; [contradiction|].
  simpl. destruct (span_txt db m); [contradiction|discriminate].
Qed.

End GroupMembers.

(** C10. The text of every group that [group_numeric_spans] returns is
    the concatenation of the trimmed texts of purely numeric spans of the
    input; it is not empty and has only digits, points and signs.  So no
    group has a degree sign, and the classifier never returns from its
    first test on the text of a group. *)
Theorem group_text_numeric (db : unicode_db) (thr : float)
    (spans : list span) (g : group) :
  In g (group_numeric_spans db spans thr) ->
  group_of_members db spans g /\
  g_text g <> [] /\
  forallb numeric_char (g_text g) = true /\
  ~ In DEGREE (g_text g) /\
  contains [DEGREE] (g_text g) = false.
Proof.
  intros Hin.
  pose proof (groups_have_members db thr spans) as Hall.
  rewrite List.Forall_forall in Hall. specialize (Hall g Hin).
  split; [exact Hall|].
  destruct Hall as (ms & Hne & Hnum & _ & Ht).
  assert (forallb numeric_char (g_text g) = true) as Hchars.
  { rewrite Ht. now apply members_text_numeric. }
  assert (~ In DEGREE (g_text g)) as Hdeg.
  { intros Hd. rewrite forallb_forall in Hchars.
    specialize (Hchars _ Hd). revert Hchars. vm_compute. discriminate. }
  split; [rewrite Ht; now apply members_text_nonempty|].
  split; [exact Hchars|]. split; [exact Hdeg|].
  destruct (contains [DEGREE] (g_text g)) eqn:E; [|reflexivity].
  apply contains_single in E. contradiction.
Qed.

Lemma group_text_numeric_witness :
  g_text (sample_group "10+0.5" "0" "0" "30" "9") <> [] /\
  contains [DEGREE] (g_text (sample_group "10+0.5" "0" "0" "30" "9")) = false.
Proof.
  assert (In (sample_group "10+0.5" "0" "0" "30" "9")
            (group_numeric_spans ascii_db
               [sample_span " 10" "0" "0" "12" "9";
                sample_span "+0.5 " "12" "0" "30" "9";
                sample_span "mm" "31" "0" "45" "9"]
               default_gap_threshold)) as Hin.
  { vm_compute. left. reflexivity. }
  destruct (group_text_numeric ascii_db default_gap_threshold _ _ Hin)
    as (_ & Hne & _ & _ & Hd).
  split; [exact Hne|exact Hd].
Defined.

(* ===================================================================== *)
(** * Page processing *)
(* ===================================================================== *)

Section ScanFacts.

Variable db : unicode_db.

Lemma group_replacement_spec (g : group) :
  group_replacement db g =
  if is_replaced db g then [replacement_of db g] else [].
Proof.
  unfold group_replacement, is_replaced, replacement_of.
  destruct (match_anchored (number_pattern db) (g_text g)); [|reflexivity].
  destruct (str_eqb (replacement_function db (g_text g)) (g_text g));
    reflexivity.
Qed.

Lemma flat_map_group_replacement (gs : list group) :
  flat_map (group_replacement db) gs =
  map (replacement_of db) (List.filter (is_replaced db) gs).
Proof.
  induction gs as [|g gs IH]; [reflexivity|].
  cbn [flat_map List.filter]. rewrite group_replacement_spec, IH.
  destruct (is_replaced db g); reflexivity.
Qed.

Lemma flat_map_flat_map {A B C} (f : A -> list B) (h : B -> list C)
    (l : list A) :
  flat_map h (flat_map f l) = flat_map (fun a => flat_map h (f a)) l.
Proof.
  induction l as [|a l IH]; [reflexivity|].
  cbn [flat_map]. rewrite flat_map_app, IH. reflexivity.
Qed.

(** The records of a page are those of its replaced groups, in order. *)
Lemma scan_page_spec (pd : page_dict) :
  scan_page db pd =
  map (replacement_of db) (List.filter (is_replaced db) (page_groups db pd)).
Proof.
  rewrite <- flat_map_group_replacement.
  unfold scan_page, page_groups. rewrite flat_map_flat_map.
  apply flat_map_ext. intros b. unfold scan_block.
  destruct (block_lines b) as [ls|]; [|reflexivity].
  cbn [default from_option id]. rewrite flat_map_flat_map. reflexivity.
Qed.

Lemma is_replaced_spec (g : group) :
  is_replaced db g = true <->
  match_anchored (number_pattern db) (g_text g) = true /\
  replacement_function db (g_text g) <> g_text g.
Proof.
  unfold is_replaced. rewrite andb_true_iff, negb_true_iff.
  split; intros [H1 H2]; (split; [exact H1|]).
  - intros E. apply str_eqb_eq in E. congruence.
  - destruct (str_eqb _ _) eqn:E; [|reflexivity].
    apply str_eqb_eq in E. contradiction.
Qed.

End ScanFacts.

(** C3 as stated fails: the group ["5."] is converted to ["0"], which
    differs from it, and no record is produced for it, since its text is
    not a complete number. *)
Lemma unmatched_group_counterexample :
  ~ (forall (db : unicode_db) (pd : page_dict) (g : group),
       In g (page_groups db pd) ->
       replacement_function db (g_text g) <> g_text g ->
       In (replacement_of db g) (scan_page db pd)) /\
  page_groups ascii_db (sample_line [sample_span "5." "0" "0" "9" "9"])
    = [sample_group "5." "0" "0" "9" "9"] /\
  replacement_function ascii_db (py "5.") = py "0" /\
  scan_page ascii_db (sample_line [sample_span "5." "0" "0" "9" "9"]) = [].
Proof.
  split; [|split; [|split]].
  - intros H.
    specialize (H ascii_db (sample_line [sample_span "5." "0" "0" "9" "9"])
                  (sample_group "5." "0" "0" "9" "9")).
    assert (In (sample_group "5." "0" "0" "9" "9")
              (page_groups ascii_db
                 (sample_line [sample_span "5." "0" "0" "9" "9"]))) as Hin.
    { vm_compute. left. reflexivity. }
    specialize (H Hin). revert H. vm_compute. intros H. apply H. discriminate.
  - vm_compute. reflexivity.
  - vm_compute. reflexivity.
  - vm_compute. reflexivity.
Qed.

(** C3, amended. The records of a page are, in the order of the scan, one
    for every group whose text matches the pattern of a complete number
    and whose conversion differs from its text, made of the group's box,
    the converted text and the group's font, size and colour; there is no
    record for any other group, in particular for none whose conversion
    equals its text. *)
Theorem replacement_iff_changed (db : unicode_db) (pd : page_dict) :
  scan_page db pd =
    map (replacement_of db) (List.filter (is_replaced db) (page_groups db pd)) /\
  (forall g, In g (page_groups db pd) ->
     match_anchored (number_pattern db) (g_text g) = true ->
     replacement_function db (g_text g) <> g_text g ->
     In (replacement_of db g) (scan_page db pd)) /\
  (forall rep, In rep (scan_page db pd) ->
     exists g, In g (page_groups db pd) /\ rep = replacement_of db g /\
       match_anchored (number_pattern db) (g_text g) = true /\
       replacement_function db (g_text g) <> g_text g) /\
  (forall g, In g (page_groups db pd) ->
     replacement_function db (g_text g) = g_text g ->
     is_replaced db g = false).
Proof.
  split; [apply scan_page_spec|]. split; [|split].
  - intros g Hin Hm Hc. rewrite scan_page_spec. apply in_map.
    apply filter_In. split; [exact Hin|]. apply is_replaced_spec. auto.
  - intros rep Hin. rewrite scan_page_spec in Hin.
    apply in_map_iff in Hin as (g & <- & Hg).
    apply filter_In in Hg as [Hg Hr]. apply is_replaced_spec in Hr as [Hm Hc].
    exists g. auto.
  - intros g _ Heq. destruct (is_replaced db g) eqn:E; [|reflexivity].
    apply is_replaced_spec in E as [_ Hc]. contradiction.
Qed.

Lemma replacement_iff_changed_witness :
  In {| rep_bbox := mk_bbox (literal "0") (literal "0") (literal "20") (literal "9");
        rep_text := py "1.00"; rep_font := py "Helvetica";
        rep_size := literal "10"; rep_color := color_int 0 |}
     (scan_page ascii_db (sample_line [sample_span "25.40" "0" "0" "20" "9"])) /\
  is_replaced ascii_db (sample_group "+5" "0" "0" "9" "9") = false.
Proof.
  split.
  - destruct (replacement_iff_changed ascii_db
                (sample_line [sample_span "25.40" "0" "0" "20" "9"]))
      as (_ & H & _).
    apply (H (sample_group "25.40" "0" "0" "20" "9")).
    + vm_compute. left. reflexivity.
    + vm_compute. reflexivity.
    + vm_compute. discriminate.
  - destruct (replacement_iff_changed ascii_db
                (sample_line [sample_span "+5" "0" "0" "9" "9"]))
      as (_ & _ & _ & H).
    apply H.
    + vm_compute. left. reflexivity.
    + vm_compute. reflexivity.
Defined.

(* ===================================================================== *)
(** * The substitution applier *)
(* ===================================================================== *)

Section ApplierFacts.

Variable db : unicode_db.
Variable raises : list event -> bool.

Lemma bind_run {A B} (m : M A) (k : A -> M B) (tr : list event) :
  (m ≫= k) tr =
  match m tr with
  | (Returned a, tr') => k a tr'
  | (Raised, tr') => (Raised, tr')
  end.
Proof. reflexivity. Qed.

Lemma bind_raised {A B} (m : M A) (k : A -> M B) (tr tr' : list event) :
  m tr = (Raised, tr') -> (m ≫= k) tr = (Raised, tr').
Proof. intros H. rewrite bind_run, H. reflexivity. Qed.

Lemma bind_returned {A B} (m : M A) (k : A -> M B) (tr tr' : list event)
    (a : A) :
  m tr = (Returned a, tr') -> (m ≫= k) tr = k a tr'.
Proof. intros H. rewrite bind_run, H. reflexivity. Qed.

(** A loop of calls that return appends its events. *)
Lemma for_each_call {A} (f : A -> event) (xs : list A) (tr : list event) :
  for_each xs (fun x => call (f x)) tr = (Returned tt, tr ++ map f xs).
Proof.
  revert tr. induction xs as [|x xs IH]; intros tr; simpl.
  - unfold mret, M_ret. now rewrite app_nil_r.
  - rewrite bind_run. unfold call at 1. rewrite IH, <- app_assoc. reflexivity.
Qed.

Lemma for_each_app {A} (xs ys : list A) (body : A -> M unit)
    (tr tr' : list event) :
  for_each xs body tr = (Returned tt, tr') ->
  for_each (xs ++ ys) body tr = for_each ys body tr'.
Proof.
  revert tr. induction xs as [|x xs IH]; intros tr; simpl.
  - unfold mret, M_ret. now intros [= ->].
  - rewrite !bind_run. destruct (body x tr) as [[[]|] tr1]; [|discriminate].
    apply IH.
Qed.

(** The three courses of the reinsertion of one record. *)
Lemma reinsert_run (page : nat) (rep : replacement) (tr : list event) :
  reinsert raises page rep tr =
  let first := insert_event page rep (rep_font rep) in
  let second := insert_event page rep helv in
  if raises (tr ++ [first]) then
    if raises (tr ++ [first; second]) then (Raised, tr ++ [first; second])
    else (Returned tt, tr ++ [first; second])
  else (Returned tt, tr ++ [first]).
Proof.
  unfold reinsert, try_except, call_guarded. cbv zeta.
  destruct (raises (tr ++ [insert_event page rep (rep_font rep)]));
    [|reflexivity].
  rewrite <- app_assoc. simpl.
  destruct (raises _); reflexivity.
Qed.

Lemma reinsert_events (page : nat) (rep : replacement) (tr : list event) :
  exists ins,
    snd (reinsert raises page rep tr) = tr ++ ins /\
    Forall (is_insert page) ins.
Proof.
  rewrite reinsert_run. cbv zeta.
  destruct (raises _); [destruct (raises _)|]; eexists; simpl;
    (split; [reflexivity|]); repeat constructor.
Qed.

Lemma for_each_reinsert_events (page : nat) (reps : list replacement)
    (tr : list event) :
  exists ins,
    snd (for_each reps (reinsert raises page) tr) = tr ++ ins /\
    Forall (is_insert page) ins.
Proof.
  revert tr. induction reps as [|rep reps IH]; intros tr; simpl.
  - exists []. rewrite app_nil_r. split; [reflexivity|constructor].
  - rewrite bind_run.
    destruct (reinsert_events page rep tr) as (ins1 & H1 & Hall1).
    destruct (reinsert raises page rep tr) as [[[]|] tr1]; simpl in H1;
      subst tr1.
    + destruct (IH (tr ++ ins1)) as (ins2 & H2 & Hall2).
      exists (ins1 ++ ins2). rewrite H2, app_assoc.
      split; [reflexivity|]. apply Forall_app. auto.
    + exists ins1. auto.
Qed.

(** The trace of the statements under [if replacements:]. *)
Lemma apply_replacements_run (page : nat) (reps : list replacement)
    (tr : list event) :
  reps <> [] ->
  apply_replacements raises page reps tr =
  for_each reps (reinsert raises page)
    (tr ++ redact_events page reps ++ [EvApplyRedactions page]).
Proof.
  intros Hne. unfold apply_replacements.
  destruct reps as [|r reps]; [contradiction|].
  rewrite bind_run, for_each_call.
  rewrite bind_run. unfold call at 1. rewrite <- app_assoc. reflexivity.
Qed.

Lemma process_page_run (page : nat) (pd : page_dict) (tr : list event) :
  process_page db raises page pd tr =
  apply_replacements raises page (scan_page db pd) (tr ++ [EvGetText page]).
Proof. reflexivity. Qed.

Lemma process_pages_app (page : nat) (docs1 docs2 : list page_dict)
    (tr tr' : list event) :
  process_pages db raises page docs1 tr = (Returned tt, tr') ->
  process_pages db raises page (docs1 ++ docs2) tr =
  process_pages db raises (page + length docs1) docs2 tr'.
Proof.
  revert page tr. induction docs1 as [|pd docs1 IH]; intros page tr; simpl.
  - unfold mret, M_ret. intros [= ->]. now rewrite Nat.add_0_r.
  - rewrite !bind_run.
    destruct (process_page db raises page pd tr) as [[[]|] tr1];
      [|discriminate].
    intros H. rewrite (IH _ _ H). f_equal. lia.
Qed.

(** An exception that leaves the loop over the pages leaves
    [process_pdf]; the document is not saved. *)
Lemma process_pdf_raised (input_file output_file : str)
    (doc : list page_dict) (tr tr' : list event) :
  process_pages db raises 0 doc (tr ++ [EvOpen input_file]) = (Raised, tr') ->
  process_pdf db raises input_file output_file doc tr = (Raised, tr').
Proof.
  intros H. unfold process_pdf. rewrite bind_run. unfold call at 1.
  now apply bind_raised.
Qed.

End ApplierFacts.

(** C7. The calls that [process_pdf] makes for one page are, in this
    order: the extraction of the text of the page; then, if there are
    records, one erasure with a white fill for the box of each record,
    one call that applies all erasures, and insertions of text; nothing
    but insertions follows the call that applies the erasures, and a page
    without records is left untouched. *)
Theorem erase_before_reinsert (db : unicode_db) (raises : list event -> bool)
    (page : nat) (pd : page_dict) (tr : list event) :
  let replacements := scan_page db pd in
  exists inserts,
    snd (process_page db raises page pd tr) =
      tr ++ [EvGetText page] ++
      match replacements with
      | [] => []
      | _ :: _ =>
          map (fun rep => EvAddRedactAnnot page (rep_bbox rep) (1, 1, 1)%Z)
            replacements
          ++ [EvApplyRedactions page] ++ inserts
      end /\
    Forall (is_insert page) inserts.
Proof.
  intros replacements. rewrite process_page_run. fold replacements.
  destruct replacements as [|r reps] eqn:E.
  - exists []. split; [|constructor]. reflexivity.
  - rewrite apply_replacements_run by discriminate.
    destruct (for_each_reinsert_events raises page (r :: reps)
                ((tr ++ [EvGetText page]) ++
                 redact_events page (r :: reps) ++ [EvApplyRedactions page]))
      as (ins & Hins & Hall).
    exists ins. split; [|exact Hall].
    rewrite Hins. unfold redact_events, white.
    rewrite <- !app_assoc. reflexivity.
Qed.

(** C8. The text of a record is first inserted with the font of the
    record.  If that call raises, the text is inserted once more, with
    the font ["helv"] and the same rectangle, text, size and colour, and
    that is the last attempt: if it raises as well, no further call is
    made, the exception leaves the page and [process_pdf], and the
    document is not saved. *)
Theorem font_fallback_once (db : unicode_db) (raises : list event -> bool)
    (page : nat) (rep : replacement) (tr : list event) :
  let first :=
    EvInsertTextbox page (rep_bbox rep) (rep_text rep) (rep_font rep)
      (rep_size rep) (rep_color rep) 0 true in
  let second :=
    EvInsertTextbox page (rep_bbox rep) (rep_text rep) (py "helv")
      (rep_size rep) (rep_color rep) 0 true in
  (raises (tr ++ [first]) = false ->
     reinsert raises page rep tr = (Returned tt, tr ++ [first])) /\
  (raises (tr ++ [first]) = true ->
   raises (tr ++ [first; second]) = false ->
     reinsert raises page rep tr = (Returned tt, tr ++ [first; second])) /\
  (raises (tr ++ [first]) = true ->
   raises (tr ++ [first; second]) = true ->
     reinsert raises page rep tr = (Raised, tr ++ [first; second]) /\
     forall pd tr0 before after,
       scan_page db pd = before ++ rep :: after ->
       for_each before (reinsert raises page)
         (tr0 ++ [EvGetText page] ++ redact_events page (scan_page db pd)
          ++ [EvApplyRedactions page]) = (Returned tt, tr) ->
       process_page db raises page pd tr0 = (Raised, tr ++ [first; second]) /\
       forall docs1 docs2 input_file output_file tr1,
         page = length docs1 ->
         process_pages db raises 0 docs1 (tr1 ++ [EvOpen input_file])
           = (Returned tt, tr0) ->
         process_pdf db raises input_file output_file
           (docs1 ++ pd :: docs2) tr1 = (Raised, tr ++ [first; second])).
Proof.
  intros first second.
  pose proof (reinsert_run raises page rep tr) as Hrun. cbv zeta in Hrun.
  change (insert_event page rep (rep_font rep)) with first in Hrun.
  change (insert_event page rep helv) with second in Hrun.
  split; [|split].
  - intros H1. rewrite Hrun, H1. reflexivity.
  - intros H1 H2. rewrite Hrun, H1, H2. reflexivity.
  - intros H1 H2.
    assert (reinsert raises page rep tr = (Raised, tr ++ [first; second]))
      as Hraise.
    { rewrite Hrun, H1, H2. reflexivity. }
    split; [exact Hraise|].
    intros pd tr0 before after Hscan Hbefore.
    assert (process_page db raises page pd tr0 =
            (Raised, tr ++ [first; second])) as Hpage.
    { rewrite process_page_run, apply_replacements_run.
      - rewrite <- app_assoc. rewrite Hscan at 1.
        rewrite (for_each_app _ _ _ _ _ Hbefore).
        cbn [for_each]. now apply bind_raised.
      - rewrite Hscan. now destruct before. }
    split; [exact Hpage|].
    intros docs1 docs2 input_file output_file tr1 Hlen Hpages.
    apply process_pdf_raised.
    rewrite (process_pages_app db raises _ _ _ _ _ Hpages).
    cbn [process_pages Nat.add]. apply bind_raised.
    rewrite <- Hlen. exact Hpage.
Qed.

Lemma font_fallback_once_witness :
  reinsert no_failure 0 sample_replacement [] =
    (Returned tt,
     [insert_event 0 sample_replacement (py "Helvetica")]) /\
  reinsert only_helv 0 sample_replacement [] =
    (Returned tt,
     [insert_event 0 sample_replacement (py "Helvetica");
      insert_event 0 sample_replacement (py "helv")]) /\
  process_pdf ascii_db no_font (py "input.pdf") (py "output_converted.pdf")
    [sample_page] [] =
    (Raised,
     [EvOpen (py "input.pdf"); EvGetText 0;
      EvAddRedactAnnot 0 (rep_bbox sample_replacement) (1, 1, 1)%Z;
      EvApplyRedactions 0;
      insert_event 0 sample_replacement (py "Helvetica");
      insert_event 0 sample_replacement (py "helv")]).
Proof.
  split; [|split].
  - destruct (font_fallback_once ascii_db no_failure 0 sample_replacement [])
      as (H & _).
    etransitivity; [apply H; reflexivity|]. vm_compute. reflexivity.
  - destruct (font_fallback_once ascii_db only_helv 0 sample_replacement [])
      as (_ & H & _).
    etransitivity; [apply H; vm_compute; reflexivity|].
    vm_compute. reflexivity.
  - destruct (font_fallback_once ascii_db no_font 0 sample_replacement
                [EvOpen (py "input.pdf"); EvGetText 0;
                 EvAddRedactAnnot 0 (rep_bbox sample_replacement) (1, 1, 1)%Z;
                 EvApplyRedactions 0])
      as (_ & _ & H).
    destruct H as [_ H]; [vm_compute; reflexivity..|].
    destruct (H sample_page [EvOpen (py "input.pdf")] [] [])
      as [_ Hpdf]; [vm_compute; reflexivity..|].
    etransitivity.
    + apply (Hpdf [] [] (py "input.pdf") (py "output_converted.pdf") []);
        vm_compute; reflexivity.
    + vm_compute. reflexivity.
Defined.

(* ===================================================================== *)
(** * The grouping as a partition of the numeric spans *)
(* ===================================================================== *)

Section PartitionFacts.

Variable db : unicode_db.
Variable thr : float.

Lemma is_blank_span_spec (s : span) :
  is_blank_span db s = true <-> blank_span db s.
Proof.
  unfold is_blank_span, blank_span.
  destruct (span_txt db s); split; congruence.
Qed.

Lemma is_numeric_span_spec (s : span) :
  is_numeric_span db s = true <-> numeric_span db s.
Proof.
  unfold is_numeric_span, numeric_span.
  destruct (span_txt db s) as [|c t] eqn:E.
  - split; [discriminate|]. intros [H _]. contradiction.
  - split; [intros H; split; [discriminate|exact H]|intros [_ H]; exact H].
Qed.

Lemma members_text_snoc (ms : list span) (s : span) :
  members_text db (ms ++ [s]) = members_text db ms ++ span_txt db s.
Proof.
  unfold members_text. rewrite map_app, concat_app. simpl.
  now rewrite app_nil_r.
Qed.

Lemma group_of_run_single (s : span) :
  group_of_run db (s, []) = new_group (span_txt db s) s.
Proof.
  unfold group_of_run, new_group, members_text, run_members, run_last.
  simpl. rewrite app_nil_r. destruct (span_bbox s). reflexivity.
Qed.

Lemma group_of_run_extend (r : run) (s : span) :
  group_of_run db (run_extend r s) =
  merge_span (group_of_run db r) (span_txt db s) (span_bbox s).
Proof.
  destruct r as [f rest].
  unfold group_of_run, merge_span, run_extend, run_members, run_last.
  cbn [fst snd g_text g_bbox g_font g_size g_color x0 y0 x1 y1].
  f_equal.
  - change (f :: rest ++ [s]) with ((f :: rest) ++ [s]).
    apply members_text_snoc.
  - f_equal.
    + now rewrite last_last.
    + now rewrite map_app, fold_left_app.
Qed.

Lemma gap_below_run (r : run) (s : span) :
  gap_below thr (group_of_run db r) s = near thr (run_last r) s.
Proof. reflexivity. Qed.

Lemma open_group_of_pstate (ps : pstate) :
  open_group (gstate_of db ps) = option_map (group_of_run db) (open_run ps).
Proof.
  unfold open_group, gstate_of, pstate_runs. cbn [groups current].
  destruct (open_run ps) as [r|]; [|reflexivity].
  rewrite map_app, lookup_app_r by (rewrite length_map; lia).
  rewrite length_map, Nat.sub_diag. reflexivity.
Qed.

(** One iteration of the loop is one step on the runs. *)
Lemma group_step_partition (ps : pstate) (s : span) :
  group_step db thr (gstate_of db ps) s =
  gstate_of db (partition_step db thr ps s).
Proof.
  unfold partition_step.
  destruct (is_blank_span db s) eqn:Eb.
  { apply group_step_blank. now apply is_blank_span_spec. }
  assert (~ blank_span db s) as Hnb.
  { intros H. apply is_blank_span_spec in H. congruence. }
  destruct (is_numeric_span db s) eqn:En.
  - apply is_numeric_span_spec in En.
    rewrite (group_step_numeric db thr _ s En), open_group_of_pstate.
    destruct ps as [fin [r|]]; cbn [option_map open_run finished].
    + rewrite gap_below_run. destruct (near thr (run_last r) s).
      * unfold gstate_of, pstate_runs.
        cbn [groups current open_run finished default from_option]. unfold id.
        f_equal. rewrite !map_app. cbn [map].
        replace (length fin) with (length (map (group_of_run db) fin) + 0)%nat
          by (rewrite length_map; lia).
        rewrite insert_app_r. cbn [insert list_insert].
        now rewrite group_of_run_extend.
      * unfold start_group, gstate_of, close_run, pstate_runs.
        cbn [groups current open_run finished].
        rewrite !map_app, !length_app, !length_map. cbn [map length].
        rewrite group_of_run_single. reflexivity.
    + unfold start_group, gstate_of, pstate_runs.
      cbn [groups current open_run finished].
      rewrite !app_nil_r, map_app, length_map. cbn [map].
      rewrite group_of_run_single. reflexivity.
  - assert (~ numeric_span db s) as Hnn.
    { intros H. apply is_numeric_span_spec in H. congruence. }
    rewrite group_step_close by assumption.
    unfold gstate_of, close_run, pstate_runs. cbn [groups current open_run finished].
    now rewrite app_nil_r.
Qed.

Lemma group_fold_partition (spans : list span) (ps : pstate) :
  fold_left (group_step db thr) spans (gstate_of db ps) =
  gstate_of db (fold_left (partition_step db thr) spans ps).
Proof.
  revert ps. induction spans as [|s spans IH]; intros ps; simpl.
  - reflexivity.
  - rewrite group_step_partition. apply IH.
Qed.

(** The members of the runs are the numeric spans, in their order. *)
Lemma partition_fold_members (spans : list span) (ps : pstate) :
  concat (map run_members
            (pstate_runs (fold_left (partition_step db thr) spans ps))) =
  concat (map run_members (pstate_runs ps)) ++
  List.filter (is_numeric_span db) spans.
Proof.
  revert ps. induction spans as [|s spans IH]; intros ps; simpl.
  - now rewrite app_nil_r.
  - rewrite IH. clear IH.
    assert (is_blank_span db s = true -> is_numeric_span db s = false) as Hbn.
    { unfold is_blank_span, is_numeric_span. destruct (span_txt db s);
        [reflexivity|discriminate]. }
    unfold partition_step.
    destruct (is_blank_span db s) eqn:Eb; [now rewrite Hbn|].
    destruct (is_numeric_span db s) eqn:En.
    + match goal with
      | |- concat (map run_members (pstate_runs ?ps')) ++ _ = _ =>
          assert (concat (map run_members (pstate_runs ps')) =
                  concat (map run_members (pstate_runs ps)) ++ [s]) as ->
      end.
      { destruct ps as [fin [[f rest]|]]; unfold pstate_runs, close_run;
          cbn [open_run finished].
        - destruct (near thr (run_last (f, rest)) s);
            cbn [open_run finished]; unfold pstate_runs;
            cbn [open_run finished];
            rewrite ?map_app, ?concat_app;
            cbn [map concat run_members run_extend fst snd];
            rewrite ?app_nil_r, <- ?app_assoc; reflexivity.
        - rewrite !app_nil_r, map_app, concat_app. reflexivity. }
      rewrite <- app_assoc. reflexivity.
    + unfold pstate_runs, close_run. cbn [open_run finished].
      now rewrite app_nil_r.
Qed.

End PartitionFacts.

(** X1. [group_numeric_spans] returns one group for each run of the line,
    in order.  The runs are formed on the spans alone: blank spans are
    passed over; a numeric span joins the run of the numeric span read
    just before it when its left edge minus that span's right edge is
    below the threshold, and starts a run otherwise; any other span ends
    the run.  The group of a run has the trimmed texts of its spans in a
    row, the left edge, top edge, font, size and colour of the first span
    (black without a colour), the right edge of the last span and the
    [max] of the bottom edges. *)
Theorem groups_are_runs (db : unicode_db) (spans : list span) (thr : float) :
  group_numeric_spans db spans thr =
  map (group_of_run db) (partition_spans db thr spans).
Proof.
  unfold group_numeric_spans, group_run, partition_spans.
  change group_init with (gstate_of db {| finished := []; open_run := None |}).
  rewrite group_fold_partition. reflexivity.
Qed.

(** X2. Every numeric span of the line belongs to exactly one run, and the
    runs keep the order of the spans: the members of the runs in a row
    are the numeric spans of the line.  Hence the texts of the groups in
    a row are the trimmed texts of the numeric spans in a row, there are
    at most as many groups as numeric spans, and there is no group
    exactly when the line has no numeric span. *)
Theorem numeric_spans_conserved (db : unicode_db) (spans : list span)
    (thr : float) :
  concat (map run_members (partition_spans db thr spans)) =
    List.filter (is_numeric_span db) spans /\
  concat (map g_text (group_numeric_spans db spans thr)) =
    concat (map (span_txt db) (List.filter (is_numeric_span db) spans)) /\
  length (group_numeric_spans db spans thr) <=
    length (List.filter (is_numeric_span db) spans) /\
  (group_numeric_spans db spans thr = [] <->
   List.filter (is_numeric_span db) spans = []).
Proof.
  assert (concat (map run_members (partition_spans db thr spans)) =
          List.filter (is_numeric_span db) spans) as Hm.
  { unfold partition_spans. rewrite partition_fold_members. reflexivity. }
  assert (forall rs : list run,
            length rs <= length (concat (map run_members rs))) as Hlen.
  { induction rs as [|r rs IH]; [reflexivity|].
    cbn [map concat]. rewrite length_app. unfold run_members at 1.
    cbn [length]. lia. }
  assert (group_numeric_spans db spans thr =
          map (group_of_run db) (partition_spans db thr spans)) as Hruns.
  { unfold group_numeric_spans, group_run, partition_spans.
    change group_init
      with (gstate_of db {| finished := []; open_run := None |}).
    rewrite group_fold_partition. reflexivity. }
  split; [exact Hm|]. split; [|split].
  - rewrite Hruns, <- Hm.
    generalize (partition_spans db thr spans). intros rs.
    induction rs as [|r rs IH]; [reflexivity|].
    cbn [map concat]. rewrite IH, map_app, concat_app. reflexivity.
  - rewrite Hruns, length_map, <- Hm. apply Hlen.
  - rewrite Hruns, <- Hm. split.
    + intros H. destruct (partition_spans db thr spans); [reflexivity|].
      discriminate.
    + intros H. specialize (Hlen (partition_spans db thr spans)).
      rewrite H in Hlen. destruct (partition_spans db thr spans);
        [reflexivity|simpl in Hlen; lia].
Qed.

(** X3. A span is blank exactly when it has no text or only white space.
    Blank spans are transparent: the groups of a line are those of the
    line without its blank spans. *)
Theorem blank_spans_transparent (db : unicode_db) :
  (forall s,
     is_blank_span db s = true <->
     forallb (isspace db) (default [] (span_text s)) = true) /\
  (forall spans thr,
     group_numeric_spans db
       (List.filter (fun s => negb (is_blank_span db s)) spans) thr =
     group_numeric_spans db spans thr).
Proof.
  split.
  - intros s. unfold is_blank_span, span_txt.
    set (t := default [] (span_text s)). clearbody t.
    assert (forall u, forallb (isspace db) u = true -> lstrip db u = []) as Hl.
    { induction u as [|c u IH]; simpl; [reflexivity|].
      intros H. apply andb_true_iff in H as [-> H]. auto. }
    split.
    + intros H. destruct (strip db t) eqn:E; [clear H|discriminate].
      unfold strip, rstrip in E.
      apply (f_equal (@rev char)) in E. rewrite rev_involutive in E.
      simpl in E.
      destruct (lstrip_decompose db (rev (lstrip db t))) as (pre & Hd & Hpre).
      rewrite E, app_nil_r in Hd.
      assert (lstrip db t = []) as Hu.
      { destruct (lstrip db t) as [|c u] eqn:Eu; [reflexivity|].
        pose proof (lstrip_head db t c u Eu) as Hc.
        assert (In c (rev (c :: u))) as Hin by (apply in_rev; rewrite rev_involutive; now left).
        rewrite Hd in Hin. rewrite forallb_forall in Hpre.
        specialize (Hpre c Hin). congruence. }
      destruct (lstrip_decompose db t) as (pre' & Hd' & Hpre').
      rewrite Hu, app_nil_r in Hd'. now subst.
    + intros H. unfold strip, rstrip. rewrite (Hl t H). reflexivity.
  - intros spans thr. unfold group_numeric_spans, group_run.
    generalize group_init. induction spans as [|s spans IH]; intros st.
    + reflexivity.
    + cbn [List.filter fold_left].
      destruct (is_blank_span db s) eqn:E; cbn [negb fold_left].
      * rewrite (group_step_blank db thr st s) by
          (now apply is_blank_span_spec). apply IH.
      * apply IH.
Qed.

Lemma blank_spans_transparent_witness :
  is_blank_span ascii_db (sample_span "  " "5" "0" "6" "9") = true.
Proof.
  destruct (blank_spans_transparent ascii_db) as [H _].
  apply H. reflexivity.
Defined.

Section ShapeFacts.

Variable db : unicode_db.

Lemma replacement_function_unparsed (text : str) :
  float_of_str db (fst (split_tolerance text)) = None ->
  replacement_function db text = text.
Proof.
  intros H. unfold replacement_function.
  destruct (contains [DEGREE] text); [reflexivity|].
  destruct (search (gdt_pattern db) text); [reflexivity|].
  pose proof (split_tolerance_concat text) as Hc.
  destruct (split_tolerance text) as [b t]. simpl in *.
  now rewrite convert_value_unparsed.
Qed.

Lemma float_of_empty : float_of_str db [] = None.
Proof. reflexivity. Qed.

Lemma split_tolerance_leading (sign : char) (rest : str) :
  (sign = PLUS \/ (sign = MINUS /\ ~ In PLUS rest)) ->
  split_tolerance (sign :: rest) = ([], sign :: rest).
Proof.
  intros [->|[-> Hp]].
  - destruct (split_tolerance_plus (PLUS :: rest)) as (pre & post & Ht & Hpre & _ & Hs);
      [now left|].
    destruct pre as [|c pre].
    + simpl in Ht. injection Ht as <-. exact Hs.
    + injection Ht as <- _. exfalso. apply Hpre. now left.
  - destruct (split_tolerance_minus (MINUS :: rest)) as (pre & post & Ht & Hpre & _ & Hs).
    + intros [H|H]; [discriminate|contradiction].
    + now left.
    + destruct pre as [|c pre].
      * simpl in Ht. injection Ht as <-. exact Hs.
      * injection Ht as <- _. exfalso. apply Hpre. now left.
Qed.

Lemma uint_digits (d : Decimal.uint) :
  forallb ascii_isdigit (of_ascii (NilEmpty.string_of_uint d)) = true.
Proof. induction d; simpl; auto. Qed.

Lemma decimal_digits_spec (n : Z) :
  decimal_digits n <> [] /\ forallb ascii_isdigit (decimal_digits n) = true.
Proof.
  unfold decimal_digits. split; [|apply uint_digits].
  assert (N.to_uint (Z.to_N n) <> Decimal.Nil) as Hn.
  { destruct (Z.to_N n) as [|q]; simpl; [discriminate|].
    apply Unsigned.to_uint_nonnil. }
  destruct (N.to_uint (Z.to_N n)); [contradiction|..]; discriminate.
Qed.

Lemma fixed_digits_spec (n : Z) (p : nat) :
  exists ip fp,
    fixed_digits n p = ip ++ match p with O => [] | S _ => DOT :: fp end /\
    ip <> [] /\ forallb ascii_isdigit ip = true /\
    forallb ascii_isdigit fp = true /\ length fp = p.
Proof.
  unfold fixed_digits. destruct (decimal_digits_spec n) as [Hne Hd].
  set (ds := repeat ZERO (S p - length (decimal_digits n)) ++ decimal_digits n).
  assert (forallb ascii_isdigit ds = true) as Hds.
  { unfold ds. rewrite forallb_app, Hd, andb_true_r.
    generalize (S p - length (decimal_digits n))%nat.
    induction n0 as [|k IH]; simpl; auto. }
  assert (S p <= length ds) as Hlen.
  { unfold ds. rewrite length_app, repeat_length. lia. }
  destruct p as [|p].
  - exists ds, []. rewrite app_nil_r. repeat split; auto.
    intros E. rewrite E in Hlen. simpl in Hlen. lia.
  - set (k := (length ds - S p)%nat).
    exists (take k ds), (drop k ds).
    rewrite <- (take_drop k ds) in Hds. rewrite forallb_app in Hds.
    apply andb_true_iff in Hds as [H1 H2].
    repeat split; auto.
    + intros E. apply (f_equal (@length char)) in E.
      rewrite length_take in E. simpl in E. unfold k in E. lia.
    + rewrite length_drop. unfold k. lia.
Qed.

(** What [format_fixed] returns. *)
Lemma format_fixed_spec (x : float) (p : nat) :
  format_fixed x p = py "nan" \/ format_fixed x p = py "inf" \/
  format_fixed x p = py "-inf" \/ fixed_numeral p (format_fixed x p).
Proof.
  assert (forall s n, fixed_numeral p (sign_str s ++ fixed_digits n p)) as Hfix.
  { intros s n. destruct (fixed_digits_spec n p)
      as (ip & fp & -> & Hne & Hip & Hfp & Hlen).
    exists (sign_str s), ip, fp. repeat split; auto.
    destruct s; simpl; auto. }
  destruct x as [s|s| |s m e]; simpl.
  - right. right. right. apply Hfix.
  - destruct s; simpl; auto.
  - now left.
  - right. right. right. apply Hfix.
Qed.

Lemma format_fixed_nonempty (x : float) (p : nat) : format_fixed x p <> [].
Proof.
  destruct (format_fixed_spec x p) as [->|[->|[->|H]]]; try discriminate.
  destruct H as (sg & ip & fp & -> & _ & Hne & _).
  destruct sg; [|discriminate]. destruct ip; [contradiction|discriminate].
Qed.

Lemma lower_mm (unit : str) :
  forallb is_ascii unit = true ->
  str_eqb (lower db unit) (py "mm") = is_mm unit.
Proof.
  intros Ha. unfold lower. rewrite Ha.
  assert (forall c, is_ascii c = true ->
            char_eqb (ascii_lower c) 109%N =
            (char_eqb c 109%N || char_eqb c 77%N)) as Hc.
  { intros c _. unfold ascii_lower, char_eqb.
    destruct ((65 <=? c) && (c <=? 90))%N eqn:E.
    - apply andb_true_iff in E as [E1 E2].
      apply N.leb_le in E1, E2.
      destruct (N.eqb_spec (c + 32) 109), (N.eqb_spec c 109),
        (N.eqb_spec c 77); simpl; try reflexivity; lia.
    - destruct (N.eqb_spec c 109), (N.eqb_spec c 77); simpl;
        try reflexivity.
      subst c. discriminate. }
  destruct unit as [|a [|b [|c u]]]; try reflexivity.
  - simpl. now rewrite andb_false_r.
  - simpl in Ha. apply andb_true_iff in Ha as [Ha Hb].
    apply andb_true_iff in Hb as [Hb _].
    cbn [map str_eqb of_ascii list_ascii_of_string is_mm].
    change (N_of_ascii "m") with 109%N.
    rewrite (Hc a Ha), (Hc b Hb), andb_true_r. reflexivity.
  - cbn [map str_eqb of_ascii list_ascii_of_string is_mm].
    now rewrite !andb_false_r.
Qed.

End ShapeFacts.

(** X4. A token with a leading sign is not converted: a token that starts
    with [+] is returned as it is, and so is a token that starts with [-]
    and has no [+]; the page scan makes no record for a group with such a
    text. *)
Theorem signed_token_unchanged (db : unicode_db) (sign : char) (rest : str) :
  sign = PLUS \/ (sign = MINUS /\ ~ In PLUS rest) ->
  split_tolerance (sign :: rest) = ([], sign :: rest) /\
  replacement_function db (sign :: rest) = sign :: rest /\
  (forall g, g_text g = sign :: rest -> group_replacement db g = []).
Proof.
  intros H. pose proof (split_tolerance_leading sign rest H) as Hs.
  assert (replacement_function db (sign :: rest) = sign :: rest) as Hr.
  { apply replacement_function_unparsed. rewrite Hs. reflexivity. }
  split; [exact Hs|]. split; [exact Hr|].
  intros g Hg. rewrite group_replacement_spec.
  unfold is_replaced. rewrite Hg, Hr.
  assert (str_eqb (sign :: rest) (sign :: rest) = true) as ->
    by now apply str_eqb_eq.
  now rewrite andb_false_r.
Qed.

Lemma signed_token_unchanged_witness :
  replacement_function ascii_db (py "-5.2") = py "-5.2" /\
  replacement_function ascii_db (py "+0.5-0.1") = py "+0.5-0.1".
Proof.
  split.
  - apply (signed_token_unchanged ascii_db MINUS (py "5.2")).
    right. split; [reflexivity|].
    intros H. apply contains_single in H. discriminate.
  - apply (signed_token_unchanged ascii_db PLUS (py "0.5-0.1")). now left.
Defined.

(** X5. [convert_value] returns its argument when it does not parse;
    otherwise it returns ["nan"], ["inf"], ["-inf"] or a numeral in fixed
    notation with exactly [precision] decimals (and no point when the
    precision is 0). *)
Theorem convert_value_shape (db : unicode_db) (value_str unit : str)
    (precision : nat) :
  match float_of_str db value_str with
  | None => convert_value db value_str unit precision = value_str
  | Some _ =>
      convert_value db value_str unit precision = py "nan" \/
      convert_value db value_str unit precision = py "inf" \/
      convert_value db value_str unit precision = py "-inf" \/
      fixed_numeral precision (convert_value db value_str unit precision)
  end.
Proof.
  unfold convert_value. destruct (float_of_str db value_str) as [v|].
  - apply format_fixed_spec.
  - reflexivity.
Qed.

(** X6. The unit is compared without regard to case: for [mm], [Mm], [mM]
    and [MM] the value is divided by 25.4; for every other unit of ASCII
    characters, known or not, it is divided by 2.54. *)
Theorem convert_value_unit (db : unicode_db) (value_str unit : str)
    (precision : nat) (v : float) :
  float_of_str db value_str = Some v ->
  forallb is_ascii unit = true ->
  convert_value db value_str unit precision =
  format_fixed
    (fdiv v (if is_mm unit then literal "25.4" else literal "2.54"))
    precision.
Proof.
  intros Hv Ha. unfold convert_value. rewrite Hv, (lower_mm db unit Ha).
  destruct (is_mm unit); reflexivity.
Qed.

Lemma convert_value_unit_witness :
  convert_value ascii_db (py "2.54") (py "cm") 2 = py "1.00" /\
  convert_value ascii_db (py "25.4") (py "MM") 2 = py "1.00" /\
  convert_value ascii_db (py "2.54") (py "inch") 2 = py "1.00".
Proof.
  split; [|split].
  - rewrite (convert_value_unit ascii_db (py "2.54") (py "cm") 2
               (literal "2.54") eq_refl eq_refl).
    vm_compute. reflexivity.
  - rewrite (convert_value_unit ascii_db (py "25.4") (py "MM") 2
               (literal "25.4") eq_refl eq_refl).
    vm_compute. reflexivity.
  - rewrite (convert_value_unit ascii_db (py "2.54") (py "inch") 2
               (literal "2.54") eq_refl eq_refl).
    vm_compute. reflexivity.
Defined.

(** X7. The result of [replacement_function] on a token that is not empty
    is not empty, and no record of a page has an empty text. *)
Theorem replacement_text_nonempty (db : unicode_db) :
  (forall text, text <> [] -> replacement_function db text <> []) /\
  (forall pd rep, In rep (scan_page db pd) -> rep_text rep <> []).
Proof.
  assert (forall text, text <> [] -> replacement_function db text <> [])
    as Hrf.
  { intros text Hne. unfold replacement_function.
    destruct (contains [DEGREE] text); [exact Hne|].
    destruct (search (gdt_pattern db) text); [exact Hne|].
    pose proof (split_tolerance_concat text) as Hc.
    destruct (split_tolerance text) as [b t]. simpl in Hc.
    unfold convert_value.
    destruct (float_of_str db b) as [v|].
    - intros E. apply app_eq_nil in E as [E _].
      now apply format_fixed_nonempty in E.
    - now rewrite Hc. }
  split; [exact Hrf|].
  intros pd rep Hin. rewrite scan_page_spec in Hin.
  apply in_map_iff in Hin as (g & <- & Hg).
  apply filter_In in Hg as [Hg _]. simpl. apply Hrf.
  unfold page_groups in Hg.
  apply in_flat_map in Hg as (b & _ & Hg).
  apply in_flat_map in Hg as (l & _ & Hg).
  pose proof (groups_have_members db default_gap_threshold (line_spans l))
    as Hall.
  rewrite List.Forall_forall in Hall.
  destruct (Hall g Hg) as (ms & Hms & Hnum & _ & ->).
  now apply members_text_nonempty.
Qed.

Lemma replacement_text_nonempty_witness :
  replacement_function ascii_db (py "+") <> [].
Proof.
  destruct (replacement_text_nonempty ascii_db) as [H _].
  apply H. discriminate.
Defined.

(* ===================================================================== *)
(** * The program as a whole *)
(* ===================================================================== *)

Section ProgramFacts.

Variable db : unicode_db.
Variable raises : list event -> bool.









End ProgramFacts.








Section PatternFacts.

Variable db : unicode_db.

Lemma matches_plus_last (p : char -> bool) (s : str) :
  matches (Plus (Class p)) s -> exists t d, s = t ++ [d] /\ p d = true.
Proof.
  intros H. apply matches_plus_class in H as [Hne Hall].
  destruct (exists_last Hne) as (t & d & ->). exists t, d.
  split; [reflexivity|]. rewrite forallb_app in Hall.
  apply andb_true_iff in Hall as [_ Hd]. simpl in Hd.
  now rewrite andb_true_r in Hd.
Qed.

Lemma unsigned_number_last (s : str) :
  matches (unsigned_number db) s ->
  exists t d, s = t ++ [d] /\ isdecimal db d = true.
Proof.
  unfold unsigned_number. intros H.
  inversion H as [| |? ? a w _ Hw| | | |]; subst.
  inversion Hw as [| |? ? b c _ Hc| | | |]; subst.
  apply matches_plus_last in Hc as (t & d & -> & Hd).
  exists (a ++ b ++ t), d. rewrite <- !app_assoc. auto.
Qed.

Lemma number_pattern_last (s : str) :
  matches (number_pattern db) s ->
  exists t d, s = t ++ [d] /\ isdecimal db d = true.
Proof.
  unfold number_pattern, Opt. intros H.
  inversion H as [| |? ? a w _ Hw| | | |]; subst.
  inversion Hw as [| |? ? u o Hu Ho| | | |]; subst.
  inversion Ho as [| | |? ? ? Hso|? ? ? He| |]; subst.
  - inversion Hso as [| |? ? sg u2 _ Hu2| | | |]; subst.
    apply unsigned_number_last in Hu2 as (t & d & -> & Hd).
    exists (a ++ u ++ sg ++ t), d. rewrite <- !app_assoc. auto.
  - inversion He; subst. rewrite app_nil_r.
    apply unsigned_number_last in Hu as (t & d & -> & Hd).
    exists (a ++ t), d. rewrite <- !app_assoc. auto.
Qed.

Lemma numeric_decimal_digit (d : char) :
  numeric_char d = true -> isdecimal db d = true -> ascii_isdigit d = true.
Proof.
  intros Hn Hd. apply numeric_char_cases in Hn as [H | [H | [H | H]]];
    [exact H|subst d; discriminate..].
Qed.

(** A text of digits, points and signs that matches the pattern of a
    complete number ends with a digit. *)
Lemma numeric_match_last (text : str) :
  forallb numeric_char text = true ->
  match_anchored (number_pattern db) text = true ->
  exists t d, text = t ++ [d] /\ ascii_isdigit d = true.
Proof.
  intros Hnum Hm. unfold match_anchored in Hm.
  apply orb_true_iff in Hm as [Hm|Hm]; apply accepts_matches in Hm.
  - apply number_pattern_last in Hm as (t & d & -> & Hd).
    exists t, d. split; [reflexivity|].
    rewrite forallb_app in Hnum. apply andb_true_iff in Hnum as [_ Hn].
    simpl in Hn. rewrite andb_true_r in Hn.
    now apply numeric_decimal_digit.
  - exfalso. inversion Hm as [| |? ? s1 s2 _ H2| | | |]; subst.
    inversion H2 as [|? c Hc| | | | |]; subst.
    apply char_eqb_eq in Hc. subst c.
    rewrite forallb_app in Hnum. apply andb_true_iff in Hnum as [_ Hn].
    discriminate.
Qed.

End PatternFacts.

(** X12. A record is made only for a group whose text ends with a digit,
    does not start with [+] and, if it starts with [-], has a [+] further
    on. *)
Theorem replaced_text_shape (db : unicode_db) (pd : page_dict)
    (rep : replacement) :
  In rep (scan_page db pd) ->
  exists g,
    In g (page_groups db pd) /\ rep = replacement_of db g /\
    (exists t d, g_text g = t ++ [d] /\ ascii_isdigit d = true) /\
    (forall rest, g_text g <> PLUS :: rest) /\
    (forall rest, g_text g = MINUS :: rest -> In PLUS rest).
Proof.
  intros Hin. rewrite scan_page_spec in Hin.
  apply in_map_iff in Hin as (g & <- & Hg).
  apply filter_In in Hg as [Hg Hr].
  apply is_replaced_spec in Hr as [Hm Hc].
  exists g. split; [exact Hg|]. split; [reflexivity|].
  assert (forallb numeric_char (g_text g) = true) as Hnum.
  { unfold page_groups in Hg.
    apply in_flat_map in Hg as (b & _ & Hg).
    apply in_flat_map in Hg as (l & _ & Hg).
    pose proof (groups_have_members db default_gap_threshold (line_spans l))
      as Hall.
    rewrite List.Forall_forall in Hall.
    destruct (Hall g Hg) as (ms & _ & Hms & _ & ->).
    now apply members_text_numeric. }
  split; [now apply numeric_match_last with (db := db)|]. split.
  - intros rest E. apply Hc. rewrite E.
    apply replacement_function_unparsed.
    rewrite split_tolerance_leading by now left. reflexivity.
  - intros rest E.
    destruct (in_dec N.eq_dec PLUS rest) as [Hp|Hp]; [exact Hp|].
    exfalso. apply Hc. rewrite E.
    apply replacement_function_unparsed.
    rewrite split_tolerance_leading by (right; auto). reflexivity.
Qed.

Lemma replaced_text_shape_witness :
  exists g,
    In g (page_groups ascii_db sample_page) /\
    sample_replacement = replacement_of ascii_db g /\
    (exists t d, g_text g = t ++ [d] /\ ascii_isdigit d = true) /\
    (forall rest, g_text g <> PLUS :: rest) /\
    (forall rest, g_text g = MINUS :: rest -> In PLUS rest).
Proof.
  apply (replaced_text_shape ascii_db sample_page sample_replacement).
  vm_compute. left. reflexivity.
Defined.
